(** * notion-exporter: the export client of src/NotionExporter.ts

    A shallow embedding of the [NotionExporter] class: the constructor and
    its configuration merge, the task submission [getTaskId], the status
    lookup [getTask], the poll loop [pollTask], and the archive accessors
    [getFileString], [getCsvString] and [getMdString].

    Conventions.
    - A JavaScript string is a [string]; a character of the model is a code
      unit below 256, which covers every literal of the source.
    - A configuration object is a finite map from property names to
      values; an absent property reads as [VUndefined].
    - The module-level object [defaultConfig] lives in a store of objects
      and is referred to by its location, so that aliasing is visible.
    - The remote service is an explicit argument: the answers it gives to
      the requests of one export call.  Every function returns the outcome
      of its promise together with the trace of effects it performed. *)

From Stdlib Require Import String Ascii List ZArith Bool Lia.
From stdpp Require Import base option gmap strings list.
Import ListNotations.

(** ** JavaScript values and strings *)

Module JS.

(** The values a configuration property or a timer delay can hold. *)
Inductive value : Type :=
| VUndefined
| VBool (b : bool)
| VNumber (n : Z)
| VString (s : string).

Global Instance value_eq_dec : EqDecision value.
Proof. solve_decision. Defined.

(** ToBoolean: what [!!v], [v || w] and [if (v)] look at. *)
Definition truthy (v : value) : bool :=
  match v with
  | VUndefined => false
  | VBool b => b
  | VNumber n => negb (n =? 0)%Z
  | VString s => negb (String.eqb s "")
  end.

(** [a || b] *)
Definition or (a b : value) : value := if truthy a then a else b.

(** An object with string keys; [o.k] is [get o k]. *)
Abbreviation object := (gmap string value).

Definition get (o : object) (k : string) : value :=
  default VUndefined (o !! k).

(** [{...base, ...src}]: own properties of [src] win. *)
Definition spread (base src : object) : object := src ∪ base.

(** White space and line terminators below 256, as [String.prototype.trim]
    strips them: TAB, LF, VT, FF, CR, SP and NBSP. *)
Definition isWhiteSpace (c : ascii) : bool :=
  match nat_of_ascii c with
  | 9 | 10 | 11 | 12 | 13 | 32 | 160 => true
  | _ => false
  end.

Fixpoint trimStart (s : string) : string :=
  match s with
  | EmptyString => EmptyString
  | String c s' => if isWhiteSpace c then trimStart s' else s
  end.

Definition trimEnd (s : string) : string :=
  String.rev (trimStart (String.rev s)).

Definition trim (s : string) : string := trimEnd (trimStart s).

(** [s.endsWith(suffix)] *)
Definition endsWith (s suffix : string) : bool :=
  let n := String.length s in
  let m := String.length suffix in
  (m <=? n)%nat && String.eqb (substring (n - m) m s) suffix.

(** A string used as a condition: [!s] is true for the empty string. *)
Definition nonEmpty (s : string) : bool := negb (String.eqb s "").

End JS.
Import JS.

(** ** Settled and unsettled promises, and the effects of a call *)

(** What a promise is rejected with, or what an async callback throws. *)
Inductive Reason : Type :=
| Message (s : string)          (* [reject("...")], a plain string *)
| JsError (message : string)    (* [throw new Error("...")] *)
| TransportError (e : string)   (* an error raised by an axios request *)
| TypeError (what : string).    (* a property read on [undefined] *)

(** The state of a promise as its holder can observe it.
    - [Polling]: the responses given to the model are used up and the next
      timer is armed;
    - [Abandoned r]: the callback that should have settled the promise threw
      [r]; no timer is armed and nothing will settle the promise. *)
Inductive Outcome (A : Type) : Type :=
| Resolved (a : A)
| Rejected (r : Reason)
| Polling
| Abandoned (r : Reason).
Arguments Resolved {A} a.
Arguments Rejected {A} r.
Arguments Polling {A}.
Arguments Abandoned {A} r.

Definition isSettled {A} (o : Outcome A) : bool :=
  match o with
  | Resolved _ | Rejected _ => true
  | Polling | Abandoned _ => false
  end.

(** The answer of the transport to one request. *)
Inductive Response (A : Type) : Type :=
| NetError (e : string)
| NetOk (data : A).
Arguments NetError {A} e.
Arguments NetOk {A} data.

(** ** Data of the export workflow *)

Record Status := { exportURL : option string }.

Record Task := { id : string; state : string; status : Status }.

(** An entry of the archive: its file name and the text its data decodes
    to, [getData().toString()]. *)
Record IZipEntry := { name : string; text : string }.

(** [zip.getEntries()], in archive order. *)
Abbreviation AdmZip := (list IZipEntry).

(** The payload of [task.request] in the body of [enqueueTask]. *)
Record ExportRequest := {
  block_id : string;
  recursive : bool;
  shouldExportComments : bool;
  exportOptions : object
}.

Record EnqueueBody := { eventName : string; request : ExportRequest }.

Inductive PostBody : Type :=
| TaskBody (task : EnqueueBody)          (* [{ task: ... }] *)
| TaskIdsBody (taskIds : list string).   (* [{ taskIds: [...] }] *)

Inductive Event : Type :=
| Post (url : string) (body : PostBody)
| Get (url : string)
| SetTimeout (ms : value)
| ConsoleError (taskId : string) (task : Task).

Definition isRequest (e : Event) : bool :=
  match e with
  | Post _ _ | Get _ => true
  | SetTimeout _ | ConsoleError _ _ => false
  end.

(** The remote service as one export call meets it. *)
Record Remote := {
  enqueueTask : EnqueueBody -> Response string;   (* [res.data.taskId] *)
  getTasks : list (Response (list Task));         (* successive status replies *)
  download : string -> Response AdmZip            (* the archive behind a URL *)
}.

(** ** Block identifiers (src/blockId.ts) *)

(** The two helpers [getTaskId] imports from "./blockId".  [getTaskId]
    is written against this interface; the claims about [getTaskId]
    itself hold for every implementation of it. *)
Class BlockId := {
  blockIdFromUrl : string -> option string;
  validateUuid : option string -> option string
}.

Module blockId.

Definition isDigit (c : ascii) : bool :=
  let n := nat_of_ascii c in (48 <=? n)%nat && (n <=? 57)%nat.

Definition isLowerHex (c : ascii) : bool :=
  let n := nat_of_ascii c in
  isDigit c || ((97 <=? n)%nat && (n <=? 102)%nat).

Definition isUpperHex (c : ascii) : bool :=
  let n := nat_of_ascii c in (65 <=? n)%nat && (n <=? 70)%nat.

Definition isHex (c : ascii) : bool := isLowerHex c || isUpperHex c.

Definition isDash (c : ascii) : bool := Ascii.eqb c "-"%char.

Definition isSlash (c : ascii) : bool := Ascii.eqb c "/"%char.

(** [toLowerCase] on one code unit: only A to Z change. *)
Definition toLower (c : ascii) : ascii :=
  let n := nat_of_ascii c in
  if (65 <=? n)%nat && (n <=? 90)%nat then ascii_of_nat (n + 32) else c.

Definition toLowerCase (s : list ascii) : list ascii := map toLower s.

Definition removeDashes (s : list ascii) : list ascii :=
  List.filter (fun c => negb (isDash c)) s.

(** Modelled from the spec: the "final path segment" of section 4.1, the
    text after the last slash, read from the reversed input. *)
Fixpoint lastSegmentRev (r : list ascii) : list ascii :=
  match r with
  | [] => []
  | c :: r' => if isSlash c then [] else c :: lastSegmentRev r'
  end.

(** Modelled from the spec: the "trailing 32-hex-character token (with or
    without dashes)" of section 4.1.  Reads a token backwards from the end
    of a segment: hexadecimal digits, with dashes anywhere between them,
    until [n] digits are taken.  The
    result is the token still reversed; whatever precedes it (the slug) is
    dropped. *)
Fixpoint trailingTokenRev (n : nat) (r : list ascii) : option (list ascii) :=
  match n with
  | O => Some []
  | S n' =>
      match r with
      | [] => None
      | c :: r' =>
          if isHex c then option_map (cons c) (trailingTokenRev n' r')
          else if isDash c then option_map (cons c) (trailingTokenRev n r')
          else None
      end
  end.

(** Modelled from the spec: src/blockId.ts, the module that defines
    [blockIdFromUrl], is missing from the sources.  Section 4.1: "If
    input is a URL, take the final path segment, strip any leading slug
    text, and extract the trailing 32-hex-character token (with or
    without dashes)."  An input without a slash is its own final segment. *)
Definition blockIdFromUrl (url : string) : option string :=
  let segment := lastSegmentRev (rev (list_ascii_of_string url)) in
  option_map (fun t => string_of_list_ascii (rev t))
             (trailingTokenRev 32 segment).

(** Modelled from the spec: src/blockId.ts, the module that defines
    [validateUuid], is missing from the sources.  Section 4.1: "If input
    matches a bare 32-hex-character (with or without dashes) pattern,
    normalize by removing dashes and lowercasing."; section 3: "after
    normalization, the identifier is exactly 32 lowercase hex
    characters, or the operation fails". *)
Definition validateUuid (str : option string) : option string :=
  match str with
  | None => None
  | Some s =>
      let digits := removeDashes (list_ascii_of_string s) in
      if (length digits =? 32)%nat && forallb isHex digits
      then Some (string_of_list_ascii (toLowerCase digits))
      else None
  end.

End blockId.

(** The implementation of the interface that follows the specification. *)
Definition specBlockId : BlockId :=
  {| blockIdFromUrl := blockId.blockIdFromUrl;
     validateUuid := blockId.validateUuid |}.

(** ** The store and the constructor *)

Abbreviation loc := positive.
Abbreviation store := (gmap loc object).

(** The module-level binding [defaultConfig] of "./config".  What the object
    holds when the module is loaded is the store's business. *)
Definition defaultConfig : loc := 1%positive.

(** [o.k] through a reference. *)
Definition read (σ : store) (l : loc) (k : string) : value :=
  get (default ∅ (σ !! l)) k.

(** [Object.assign(target, source)]: copies the own properties of [source]
    into the object [target] refers to and returns [target] itself; an
    [undefined] source is skipped. *)
Definition Object_assign (σ : store) (target : loc) (source : option object)
  : store * loc :=
  match source with
  | None => (σ, target)
  | Some src => (alter (fun tgt => src ∪ tgt) target σ, target)
  end.

Definition tokenV2Name : string := "NOTION_TOKEN".
Definition fileTokenName : string := "NOTION_FILE_TOKEN".

(** [arg?.trim() || process.env[envName]?.trim()], then the check. *)
Definition argOrEnv (env : gmap string string) (envName : string)
  (arg : option string) : Reason + string :=
  let fromArg := option_map trim arg in
  let token :=
    match fromArg with
    | Some a => if nonEmpty a then Some a else option_map trim (env !! envName)
    | None => option_map trim (env !! envName)
    end in
  match token with
  | Some t => if nonEmpty t then inr t else inl (JsError ("Missing " +:+ envName))
  | None => inl (JsError ("Missing " +:+ envName))
  end.

Record AxiosInstance := { baseURL : string; Cookie : string }.

Record NotionExporter := { client : AxiosInstance; config : loc }.

(** [new NotionExporter(tokenV2, fileToken, config)] *)
Definition constructor (env : gmap string string) (σ : store)
  (tokenV2 fileToken : option string) (cfg : option object)
  : Reason + (store * NotionExporter) :=
  match argOrEnv env tokenV2Name tokenV2 with
  | inl e => inl e
  | inr token =>
      match argOrEnv env fileTokenName fileToken with
      | inl e => inl e
      | inr fileTok =>
          let axios :=
            {| baseURL := "https://www.notion.so/api/v3/";
               Cookie := "token_v2=" +:+ token +:+ ";file_token=" +:+ fileTok |} in
          let (σ', merged) := Object_assign σ defaultConfig cfg in
          inr (σ', {| client := axios; config := merged |})
      end
  end.

(** ** Task submission *)

(** [!id] for [id : string | undefined]. *)
Definition present (s : option string) : bool :=
  match s with
  | Some t => nonEmpty t
  | None => false
  end.

(** The object literal posted to "enqueueTask", after
    [const { recursive, pollInterval, ...config } = this.config]. *)
Definition enqueueBody (cfg : object) (blockId : string) : EnqueueBody :=
  let recursive := get cfg "recursive" in
  let rest := delete "pollInterval" (delete "recursive" cfg) in
  {| eventName := "exportBlock";
     request :=
       {| block_id := blockId;
          recursive := truthy recursive;
          shouldExportComments := false;
          exportOptions := spread {[ "exportType" := VString "markdown" ]} rest |} |}.

(** Every property name that occurs in the posted body, at any depth. *)
Definition bodyKeys (b : EnqueueBody) : gset string :=
  list_to_set ["task"; "eventName"; "request"; "block"; "id"; "recursive";
               "shouldExportComments"; "exportOptions"]
  ∪ dom (exportOptions (request b)).

Definition getTaskId `{BlockId} (σ : store) (this : NotionExporter)
  (remote : Remote) (idOrUrl : string) : Outcome string * list Event :=
  let id := validateUuid (blockIdFromUrl idOrUrl) in
  match id with
  | Some blockId =>
      if nonEmpty blockId then
        let body := enqueueBody (default ∅ (σ !! config this)) blockId in
        match enqueueTask remote body with
        | NetOk taskId => (Resolved taskId, [Post "enqueueTask" (TaskBody body)])
        | NetError e =>
            (Rejected (TransportError e), [Post "enqueueTask" (TaskBody body)])
        end
      else (Rejected (Message ("Invalid URL or blockId: " +:+ idOrUrl)), [])
  | None => (Rejected (Message ("Invalid URL or blockId: " +:+ idOrUrl)), [])
  end.

(** ** The poll loop *)

(** [getTask]: one status query and the lookup in its results.  The lookup
    is [Array.prototype.find], so it may yield [undefined]. *)
Definition getTask (reply : Response (list Task)) (taskId : string)
  : (Reason + option Task) * list Event :=
  let query := Post "getTasks" (TaskIdsBody [taskId]) in
  match reply with
  | NetError e => (inl (TransportError e), [query])
  | NetOk results =>
      (inr (List.find (fun t => String.eqb (id t) taskId) results), [query])
  end.

(** What one run of the [poll] callback decides once [getTask] has
    answered. *)
Inductive Step : Type :=
| Resolve (url : string)                 (* [resolve(task.status.exportURL)] *)
| Again                                  (* [setTimeout(poll, interval)] *)
| Fail (logged : Task) (why : string)    (* [console.error]; [reject(...)] *)
| Throw (r : Reason).                    (* the callback itself throws *)

Definition inspect (taskId : string) (found : option Task) : Step :=
  match found with
  | None => Throw (TypeError "Cannot read properties of undefined (reading 'state')")
  | Some task =>
      if String.eqb (state task) "success" && present (exportURL (status task))
      then Resolve (default "" (exportURL (status task)))
      else if String.eqb (state task) "in_progress"
              || String.eqb (state task) "not_started"
      then Again
      else Fail task ("Export task failed: " +:+ taskId +:+ ".")
  end.

(** The callback [poll], run each time its timer fires, against the replies
    still to come.  It settles the enclosing promise only through
    [resolve] and [reject]; what it throws rejects the callback's own
    promise, which [setTimeout] drops. *)
Fixpoint poll (interval : value) (taskId : string)
  (replies : list (Response (list Task))) : Outcome string * list Event :=
  match replies with
  | [] => (Polling, [])
  | reply :: later =>
      let (answer, queried) := getTask reply taskId in
      match answer with
      | inl e => (Abandoned e, queried)
      | inr found =>
          match inspect taskId found with
          | Resolve url => (Resolved url, queried)
          | Again =>
              let (o, tr) := poll interval taskId later in
              (o, queried ++ SetTimeout interval :: tr)
          | Fail task why =>
              (Rejected (Message why), queried ++ [ConsoleError taskId task])
          | Throw r => (Abandoned r, queried)
          end
      end
  end.

Definition pollInterval (σ : store) (this : NotionExporter) : value :=
  or (read σ (config this) "pollInterval") (read σ defaultConfig "pollInterval").

Definition pollTask (σ : store) (this : NotionExporter) (remote : Remote)
  (taskId : string) : Outcome string * list Event :=
  let interval := pollInterval σ this in
  let (o, tr) := poll interval taskId (getTasks remote) in
  (o, SetTimeout interval :: tr).

(** [p.then(f)] for an [f] that returns a promise, with the traces joined. *)
Definition andThen {A B} (p : Outcome A * list Event)
  (f : A -> Outcome B * list Event) : Outcome B * list Event :=
  match p with
  | (Resolved a, tr) => let (o, tr') := f a in (o, tr ++ tr')
  | (Rejected r, tr) => (Rejected r, tr)
  | (Polling, tr) => (Polling, tr)
  | (Abandoned r, tr) => (Abandoned r, tr)
  end.

Definition getZipUrl `{BlockId} (σ : store) (this : NotionExporter)
  (remote : Remote) (idOrUrl : string) : Outcome string * list Event :=
  andThen (getTaskId σ this remote idOrUrl) (pollTask σ this remote).

(** ** Download and the archive accessors *)

Definition downloadZip (remote : Remote) (url : string)
  : Outcome AdmZip * list Event :=
  match download remote url with
  | NetOk zip => (Resolved zip, [Get url])
  | NetError e => (Rejected (TransportError e), [Get url])
  end.

Definition getZip `{BlockId} (σ : store) (this : NotionExporter)
  (remote : Remote) (idOrUrl : string) : Outcome AdmZip * list Event :=
  andThen (getZipUrl σ this remote idOrUrl) (downloadZip remote).

(** The part of [getFileString] that follows [await this.getZip(idOrUrl)]:
    [entry?.getData().toString().trim() || Promise.reject(...)]. *)
Definition fileString (zip : AdmZip) (predicate : IZipEntry -> bool)
  : Outcome string :=
  let entry := List.find predicate zip in
  match option_map (fun e => trim (text e)) entry with
  | Some s => if nonEmpty s then Resolved s
              else Rejected (Message "Could not find file in ZIP.")
  | None => Rejected (Message "Could not find file in ZIP.")
  end.

Definition getFileString `{BlockId} (σ : store) (this : NotionExporter)
  (remote : Remote) (idOrUrl : string) (predicate : IZipEntry -> bool)
  : Outcome string * list Event :=
  andThen (getZip σ this remote idOrUrl)
          (fun zip => (fileString zip predicate, [])).

(** The predicate of [getCsvString]; the flag is optional. *)
Definition csvPredicate (onlyCurrentView : option bool) (e : IZipEntry) : bool :=
  endsWith (name e) (if default false onlyCurrentView then ".csv" else "_all.csv").

Definition getCsvString `{BlockId} (σ : store) (this : NotionExporter)
  (remote : Remote) (idOrUrl : string) (onlyCurrentView : option bool)
  : Outcome string * list Event :=
  getFileString σ this remote idOrUrl (csvPredicate onlyCurrentView).

Definition getMdString `{BlockId} (σ : store) (this : NotionExporter)
  (remote : Remote) (idOrUrl : string) : Outcome string * list Event :=
  getFileString σ this remote idOrUrl (fun e => endsWith (name e) ".md").

(** ** Vocabulary of the statements *)

(** A reply after which the callback re-arms its timer. *)
Definition retries (taskId : string) (reply : Response (list Task)) : bool :=
  match reply with
  | NetOk results =>
      match inspect taskId (List.find (fun t => String.eqb (id t) taskId) results) with
      | Again => true
      | _ => false
      end
  | NetError _ => false
  end.

(** The effects of the iterations that re-arm the timer: one status query
    and one [setTimeout] each. *)
Definition retryTrace (interval : value) (taskId : string)
  (pre : list (Response (list Task))) : list Event :=
  flat_map (fun _ => [Post "getTasks" (TaskIdsBody [taskId]); SetTimeout interval]) pre.

(** A step that took one of the three branches of the [if] in [poll]. *)
Definition classified (s : Step) : bool :=
  match s with
  | Throw _ => false
  | _ => true
  end.

(** The states on which the callback does not give up. *)
Definition knownState (s : string) : bool :=
  String.eqb s "not_started" || String.eqb s "in_progress" || String.eqb s "success".

(** Hexadecimal digits with optional dashes, 32 digits in all. *)
Definition dashedHex32 (s : string) : Prop :=
  let cs := list_ascii_of_string s in
  forallb (fun c => blockId.isHex c || blockId.isDash c) cs = true
  /\ length (blockId.removeDashes cs) = 32.

(** An input that holds such a token somewhere. *)
Definition containsIdentifier (s : string) : Prop :=
  exists pre tok post,
    list_ascii_of_string s = pre ++ list_ascii_of_string tok ++ post
    /\ dashedHex32 tok.

(** The identifier [getTaskId] works with: line 62 of the source. *)
Definition resolve `{BlockId} (idOrUrl : string) : option string :=
  validateUuid (blockIdFromUrl idOrUrl).

(** ** Sample data *)

Module Sample.

Definition defaults : object :=
  {[ "recursive" := VBool false; "pollInterval" := VNumber 2000 ]}.

Definition σ0 : store := {[ defaultConfig := defaults ]}.

Definition exporter : NotionExporter :=
  {| client := {| baseURL := "https://www.notion.so/api/v3/";
                  Cookie := "token_v2=a;file_token=b" |};
     config := defaultConfig |}.

Definition task (st : string) (url : option string) : Task :=
  {| id := "t1"; state := st; status := {| exportURL := url |} |}.

Definition service (replies : list (Response (list Task))) (zip : AdmZip) : Remote :=
  {| enqueueTask := fun _ => NetOk "t1";
     getTasks := replies;
     download := fun _ => NetOk zip |}.

Definition finished : Response (list Task) :=
  NetOk [task "success" (Some "https://files.example/export.zip")].

Definition pageId : string := "83715d7703ee4b8699b5e659a4712dd8".

Definition viewCurrent : IZipEntry := {| name := "view_current.csv"; text := "a,b" |}.
Definition tableAll : IZipEntry := {| name := "table_all.csv"; text := "a,b,c" |}.

End Sample.

(** ** Extraction to disk and the command line (src/action.ts) *)

(** What the process does besides the exporter's own effects. *)
Inductive Printed : Type :=
| PText (s : string)           (* [console.log] of a string *)
| PReason (r : Reason)         (* [console.log(e)] for any other value *)
| PResponseData (e : string).  (* [axiosError.response?.data] of the error [e] *)

Inductive ProcessEvent : Type :=
| Client (e : Event)                           (* an effect of the exporter *)
| ExtractAllTo (zip : AdmZip) (path : string)  (* [zip.extractAllTo(path)] *)
| Question (tokenName : string)                (* [prompt.question] *)
| ConsoleLog (what : Printed).

(** [getMdFiles]: the archive is unpacked once [getZip] has resolved.
    [extractAllTo] stands for the library call: [Some e] when it throws. *)
Definition getMdFiles `{BlockId} (σ : store) (this : NotionExporter)
  (remote : Remote) (extractAllTo : AdmZip -> string -> option string)
  (idOrUrl path : string) : Outcome unit * list ProcessEvent :=
  match getZip σ this remote idOrUrl with
  | (Resolved zip, tr) =>
      (match extractAllTo zip path with
       | Some e => Rejected (JsError e)
       | None => Resolved tt
       end,
       map Client tr ++ [ExtractAllTo zip path])
  | (Rejected r, tr) => (Rejected r, map Client tr)
  | (Polling, tr) => (Polling, map Client tr)
  | (Abandoned r, tr) => (Abandoned r, map Client tr)
  end.

Definition FileType : list string := ["md"; "csv"].

(** [(FileType as readonly string[]).includes(s)] *)
Definition isFileType (s : string) : bool :=
  existsb (String.eqb s) FileType.

(** [process.env[tokenName] || (await askToken(tokenName))]; [answer] is
    what the user pastes at the prompt. *)
Definition envOrAskToken (env : gmap string string) (answer : string -> string)
  (tokenName : string) : string * list ProcessEvent :=
  match env !! tokenName with
  | Some v => if nonEmpty v then (v, []) else (answer tokenName, [Question tokenName])
  | None => (answer tokenName, [Question tokenName])
  end.

(** How a run of [action] ends. *)
Inductive Ending : Type :=
| Exit (code : Z)     (* [process.exit(code)] *)
| Finished            (* the exported text was printed; nothing follows *)
| Thrown (r : Reason) (* [action] itself threw; no handler is attached *)
| Waiting.            (* the export promise is not settled *)

(** The body of the [catch] handler, up to [process.exit(1)]. *)
Definition report (r : Reason) : list ProcessEvent :=
  match r with
  | TransportError e =>
      [ConsoleLog (PText e); ConsoleLog (PResponseData e)]   (* [isAxiosError] *)
  | Message s => [ConsoleLog (PText s)]
  | _ => [ConsoleLog (PReason r)]
  end.

(** [action(blockId, fileType, config)] *)
Definition action `{BlockId} (env : gmap string string) (σ : store)
  (answer : string -> string) (remote : Remote)
  (blockId fileType : string) (cfg : option object)
  : Ending * list ProcessEvent :=
  if negb (isFileType fileType) then
    (Exit 1,
     [ConsoleLog (PText "File type (-t, --type) has to be one of: md,csv")])
  else
    let (tokenV2, asked1) := envOrAskToken env answer "NOTION_TOKEN" in
    let (fileToken, asked2) := envOrAskToken env answer "NOTION_FILE_TOKEN" in
    match constructor env σ (Some tokenV2) (Some fileToken) cfg with
    | inl e => (Thrown e, asked1 ++ asked2)
    | inr (σ', exporter) =>
        let (outputStr, tr) :=
          if String.eqb fileType "csv"
          then getCsvString σ' exporter remote blockId None
          else getMdString σ' exporter remote blockId in
        let before := asked1 ++ asked2 ++ map Client tr in
        match outputStr with
        | Resolved s => (Finished, before ++ [ConsoleLog (PText s)])
        | Rejected r => (Exit 1, before ++ report r)
        | Polling | Abandoned _ => (Waiting, before)
        end
    end.

(** [fetchEnv] of src/test.ts. *)
Definition fetchEnv (env : gmap string string) (envName : string)
  : Reason + string :=
  match option_map trim (env !! envName) with
  | Some v => if nonEmpty v then inr v else inl (JsError ("Missing " +:+ envName))
  | None => inl (JsError ("Missing " +:+ envName))
  end.

(** A process event that is a network request of the exporter. *)
Definition isClientRequest (e : ProcessEvent) : bool :=
  match e with
  | Client ev => isRequest ev
  | _ => false
  end.

(** An armed timer. *)
Definition isTimer (e : Event) : bool :=
  match e with
  | SetTimeout _ => true
  | _ => false
  end.

(** The same service with other answers to the status queries. *)
Definition withReplies (remote : Remote) (replies : list (Response (list Task)))
  : Remote :=
  {| enqueueTask := enqueueTask remote;
     getTasks := replies;
     download := download remote |}.

(** A string with no white space at either end. *)
Definition trimmed (s : string) : Prop := trim s = s.

(** * Properties *)

(** ** Strings and values *)

Lemma nonEmpty_true (s : string) : nonEmpty s = true <-> s <> "".
Proof.
  unfold nonEmpty. rewrite negb_true_iff. split.
  - intros E ->. discriminate.
  - intros N. destruct s; [congruence | reflexivity].
Qed.

Lemma nonEmpty_false (s : string) : nonEmpty s = false <-> s = "".
Proof.
  unfold nonEmpty. rewrite negb_false_iff. apply String.eqb_eq.
Qed.

Lemma present_true (o : option string) :
  present o = true <-> exists u, o = Some u /\ u <> "".
Proof.
  destruct o as [u|]; simpl.
  - rewrite nonEmpty_true. split; [eauto | intros (? & [= <-] & ?); assumption].
  - split; [discriminate | intros (? & ? & _); discriminate].
Qed.

(** ** One run of the callback *)

Lemma inspect_resolve taskId task url :
  state task = "success" -> exportURL (status task) = Some url -> url <> "" ->
  inspect taskId (Some task) = Resolve url.
Proof.
  intros Hs Hu Hne. unfold inspect. rewrite Hs, Hu. simpl.
  apply nonEmpty_true in Hne. rewrite Hne. reflexivity.
Qed.

Lemma inspect_again taskId task :
  state task = "in_progress" \/ state task = "not_started" ->
  inspect taskId (Some task) = Again.
Proof.
  intros [Hs | Hs]; unfold inspect; rewrite Hs; reflexivity.
Qed.

Lemma inspect_again_inv taskId found :
  inspect taskId found = Again ->
  exists task, found = Some task
    /\ (state task = "in_progress" \/ state task = "not_started").
Proof.
  destruct found as [task|]; [| discriminate].
  unfold inspect. intros H. exists task. split; [reflexivity|].
  destruct (String.eqb (state task) "success" && present (exportURL (status task)));
    [discriminate|].
  destruct (String.eqb (state task) "in_progress") eqn:E1.
  - left. now apply String.eqb_eq.
  - destruct (String.eqb (state task) "not_started") eqn:E2; [| discriminate].
    right. now apply String.eqb_eq.
Qed.

Lemma inspect_fail taskId task :
  (state task = "success" /\ present (exportURL (status task)) = false)
  \/ knownState (state task) = false ->
  inspect taskId (Some task) = Fail task ("Export task failed: " +:+ taskId +:+ ".").
Proof.
  unfold inspect, knownState. intros [[Hs Hu] | Hk].
  - rewrite Hs, Hu. reflexivity.
  - apply orb_false_iff in Hk as [Hk Hsucc].
    apply orb_false_iff in Hk as [Hns Hip].
    rewrite Hsucc, Hns, Hip. reflexivity.
Qed.

Lemma inspect_classified taskId found :
  classified (inspect taskId found) = true <-> exists task, found = Some task.
Proof.
  destruct found as [task|]; simpl.
  - split; [eauto | intros _].
    destruct (_ && _); [reflexivity|]. destruct (_ || _); reflexivity.
  - split; [discriminate | intros [? ?]; discriminate].
Qed.

(** ** The loop *)

Lemma poll_skip_retries interval taskId pre rest :
  forallb (retries taskId) pre = true ->
  poll interval taskId (pre ++ rest) =
    (fst (poll interval taskId rest),
     retryTrace interval taskId pre ++ snd (poll interval taskId rest)).
Proof.
  induction pre as [| reply pre IH]; intros Hpre.
  - simpl. now destruct (poll interval taskId rest).
  - simpl in Hpre. apply andb_true_iff in Hpre as [Hr Hpre].
    specialize (IH Hpre). simpl app. cbn [poll].
    destruct reply as [e | results]; [discriminate|].
    unfold retries in Hr. cbn [getTask].
    destruct (inspect taskId _); try discriminate.
    rewrite IH. reflexivity.
Qed.

Lemma pollTask_skip_retries σ this remote taskId pre rest :
  getTasks remote = pre ++ rest ->
  forallb (retries taskId) pre = true ->
  pollTask σ this remote taskId =
    (fst (poll (pollInterval σ this) taskId rest),
     SetTimeout (pollInterval σ this)
       :: retryTrace (pollInterval σ this) taskId pre
       ++ snd (poll (pollInterval σ this) taskId rest)).
Proof.
  intros Hg Hpre. unfold pollTask. rewrite Hg.
  rewrite (poll_skip_retries _ _ _ _ Hpre). reflexivity.
Qed.

Lemma pollInterval_configured σ this :
  truthy (read σ (config this) "pollInterval") = true ->
  pollInterval σ this = read σ (config this) "pollInterval".
Proof. intros H. unfold pollInterval, or. now rewrite H. Qed.

Lemma andThen_unsettled {A B} (p : Outcome A * list Event)
  (f : A -> Outcome B * list Event) r :
  fst p = Abandoned r -> fst (andThen p f) = Abandoned r.
Proof. destruct p as [[a | r' | | r'] tr]; simpl; congruence. Qed.

Lemma andThen_resolved {A B} (p : Outcome A * list Event)
  (f : A -> Outcome B * list Event) a tr :
  p = (Resolved a, tr) -> andThen p f = (fst (f a), tr ++ snd (f a)).
Proof. intros ->. simpl. now destruct (f a). Qed.

Lemma andThen_rejected {A B} (p : Outcome A * list Event)
  (f : A -> Outcome B * list Event) r tr :
  p = (Rejected r, tr) -> andThen p f = (Rejected r, tr).
Proof. now intros ->. Qed.

(** C5. A task whose status queries report [in_progress], [in_progress] and
    then [success] with an export URL (a non-empty string): the loop arms
    the timer with the poll interval before each of exactly three status
    queries, asks nothing further, and resolves with that URL.  The interval
    is the configured [pollInterval] whenever that is set. *)
Theorem pollTask_in_progress_twice_then_success
  (σ : store) (this : NotionExporter) (remote : Remote) (taskId : string)
  (r1 r2 r3 : list Task) (later : list (Response (list Task)))
  (t1 t2 t3 : Task) (url : string) :
  getTasks remote = NetOk r1 :: NetOk r2 :: NetOk r3 :: later ->
  List.find (fun t => String.eqb (id t) taskId) r1 = Some t1 ->
  List.find (fun t => String.eqb (id t) taskId) r2 = Some t2 ->
  List.find (fun t => String.eqb (id t) taskId) r3 = Some t3 ->
  state t1 = "in_progress" -> state t2 = "in_progress" ->
  state t3 = "success" -> exportURL (status t3) = Some url -> url <> "" ->
  let interval := pollInterval σ this in
  let query := Post "getTasks" (TaskIdsBody [taskId]) in
  pollTask σ this remote taskId =
    (Resolved url,
     [SetTimeout interval; query; SetTimeout interval; query;
      SetTimeout interval; query])
  /\ length (List.filter isRequest (snd (pollTask σ this remote taskId))) = 3
  /\ (truthy (read σ (config this) "pollInterval") = true ->
      interval = read σ (config this) "pollInterval").
Proof.
  intros Hg F1 F2 F3 S1 S2 S3 Hu Hne interval query.
  assert (E : pollTask σ this remote taskId =
    (Resolved url,
     [SetTimeout interval; query; SetTimeout interval; query;
      SetTimeout interval; query])).
  { unfold pollTask. rewrite Hg. cbn [poll getTask].
    rewrite F1, F2, F3.
    rewrite (inspect_again taskId t1) by (left; exact S1).
    rewrite (inspect_again taskId t2) by (left; exact S2).
    rewrite (inspect_resolve taskId t3 url S3 Hu Hne).
    reflexivity. }
  rewrite E. repeat split.
  apply pollInterval_configured.
Qed.

Lemma pollTask_in_progress_twice_then_success_witness :
  pollTask Sample.σ0 Sample.exporter
    (Sample.service
       [NetOk [Sample.task "in_progress" None];
        NetOk [Sample.task "in_progress" None]; Sample.finished] [])
    "t1"
  = (Resolved "https://files.example/export.zip",
     [SetTimeout (VNumber 2000); Post "getTasks" (TaskIdsBody ["t1"]);
      SetTimeout (VNumber 2000); Post "getTasks" (TaskIdsBody ["t1"]);
      SetTimeout (VNumber 2000); Post "getTasks" (TaskIdsBody ["t1"])]).
Proof.
  refine (proj1 (pollTask_in_progress_twice_then_success
    Sample.σ0 Sample.exporter _ "t1" _ _ _ [] 
    (Sample.task "in_progress" None) (Sample.task "in_progress" None)
    (Sample.task "success" (Some "https://files.example/export.zip"))
    "https://files.example/export.zip" _ _ _ _ _ _ _ _ _));
    try reflexivity.
  discriminate.
Defined.

(** C7, as the code has it.  An iteration that observes the task record
    with state [success] and no usable export URL, or with a state other
    than [not_started], [in_progress] and [success], ends the loop: the
    record is written to the error console together with the task
    identifier, and the promise is rejected with a message that names the
    task identifier and nothing else. *)
Theorem pollTask_terminal_failure
  (σ : store) (this : NotionExporter) (remote : Remote) (taskId : string)
  (pre later : list (Response (list Task))) (results : list Task) (task : Task) :
  getTasks remote = pre ++ NetOk results :: later ->
  forallb (retries taskId) pre = true ->
  List.find (fun t => String.eqb (id t) taskId) results = Some task ->
  (state task = "success" /\ present (exportURL (status task)) = false)
  \/ knownState (state task) = false ->
  pollTask σ this remote taskId =
    (Rejected (Message ("Export task failed: " +:+ taskId +:+ ".")),
     SetTimeout (pollInterval σ this)
       :: retryTrace (pollInterval σ this) taskId pre
       ++ [Post "getTasks" (TaskIdsBody [taskId]); ConsoleError taskId task]).
Proof.
  intros Hg Hpre Hfind Hstate.
  rewrite (pollTask_skip_retries _ _ _ _ _ _ Hg Hpre).
  cbn [poll getTask]. rewrite Hfind, (inspect_fail taskId task Hstate).
  reflexivity.
Qed.

Lemma pollTask_terminal_failure_witness :
  pollTask Sample.σ0 Sample.exporter
    (Sample.service
       [NetOk [Sample.task "not_started" None];
        NetOk [Sample.task "success" None]] [])
    "t1"
  = (Rejected (Message "Export task failed: t1."),
     [SetTimeout (VNumber 2000); Post "getTasks" (TaskIdsBody ["t1"]);
      SetTimeout (VNumber 2000); Post "getTasks" (TaskIdsBody ["t1"]);
      ConsoleError "t1" (Sample.task "success" None)]).
Proof.
  refine (pollTask_terminal_failure Sample.σ0 Sample.exporter _ "t1"
    [NetOk [Sample.task "not_started" None]] []
    [Sample.task "success" None] (Sample.task "success" None) _ _ _ _).
  - reflexivity.
  - reflexivity.
  - reflexivity.
  - left. split; reflexivity.
Defined.

(** C7, as the specification states it, fails: two different last observed records
    of the same task lead to one and the same rejection, so no reading of
    the error yields the observed status payload. *)
Lemma pollTask_rejection_omits_payload :
  ~ (exists payloadOf : Outcome string -> Task,
       payloadOf (fst (pollTask Sample.σ0 Sample.exporter
         (Sample.service [NetOk [Sample.task "failure" None]] []) "t1"))
       = Sample.task "failure" None
       /\ payloadOf (fst (pollTask Sample.σ0 Sample.exporter
         (Sample.service [NetOk [Sample.task "cancelled" None]] []) "t1"))
       = Sample.task "cancelled" None).
Proof.
  intros (payloadOf & Ha & Hb).
  change (fst (pollTask Sample.σ0 Sample.exporter
            (Sample.service [NetOk [Sample.task "cancelled" None]] []) "t1"))
    with (fst (pollTask Sample.σ0 Sample.exporter
            (Sample.service [NetOk [Sample.task "failure" None]] []) "t1")) in Hb.
  rewrite Ha in Hb. discriminate Hb.
Qed.

(** C1.  The callback re-arms its timer only on a record in state
    [in_progress] or [not_started].  A transport error in a status query,
    after any number of such iterations: no further query is made, but the
    promise of [pollTask] is left unsettled instead of rejected, and so is
    every promise chained on it. *)
Theorem pollTask_transport_error_is_dropped
  (B : BlockId) (σ : store) (this : NotionExporter) (remote : Remote)
  (taskId : string) (pre later : list (Response (list Task))) (e : string) :
  getTasks remote = pre ++ NetError e :: later ->
  forallb (retries taskId) pre = true ->
  pollTask σ this remote taskId =
    (Abandoned (TransportError e),
     SetTimeout (pollInterval σ this)
       :: retryTrace (pollInterval σ this) taskId pre
       ++ [Post "getTasks" (TaskIdsBody [taskId])])
  /\ isSettled (fst (pollTask σ this remote taskId)) = false
  /\ (forall found, inspect taskId found = Again ->
        exists task, found = Some task
          /\ (state task = "in_progress" \/ state task = "not_started"))
  /\ (forall idOrUrl tr predicate,
        getTaskId σ this remote idOrUrl = (Resolved taskId, tr) ->
        fst (getZipUrl σ this remote idOrUrl) = Abandoned (TransportError e)
        /\ fst (getFileString σ this remote idOrUrl predicate)
           = Abandoned (TransportError e)).
Proof.
  intros Hg Hpre.
  assert (E : pollTask σ this remote taskId =
    (Abandoned (TransportError e),
     SetTimeout (pollInterval σ this)
       :: retryTrace (pollInterval σ this) taskId pre
       ++ [Post "getTasks" (TaskIdsBody [taskId])])).
  { rewrite (pollTask_skip_retries _ _ _ _ _ _ Hg Hpre). reflexivity. }
  split; [exact E|]. split; [now rewrite E|].
  split; [apply inspect_again_inv|].
  intros idOrUrl tr predicate Hid.
  assert (Z : fst (getZipUrl σ this remote idOrUrl) = Abandoned (TransportError e)).
  { unfold getZipUrl. rewrite (andThen_resolved _ _ _ _ Hid), E. reflexivity. }
  split; [exact Z|].
  unfold getFileString, getZip.
  now do 2 apply andThen_unsettled.
Qed.

Lemma pollTask_transport_error_is_dropped_witness :
  pollTask Sample.σ0 Sample.exporter
    (Sample.service
       [NetOk [Sample.task "in_progress" None]; NetError "ECONNRESET";
        Sample.finished] [])
    "t1"
  = (Abandoned (TransportError "ECONNRESET"),
     [SetTimeout (VNumber 2000); Post "getTasks" (TaskIdsBody ["t1"]);
      SetTimeout (VNumber 2000); Post "getTasks" (TaskIdsBody ["t1"])]).
Proof.
  refine (proj1 (pollTask_transport_error_is_dropped specBlockId
    Sample.σ0 Sample.exporter _ "t1"
    [NetOk [Sample.task "in_progress" None]] [Sample.finished] "ECONNRESET" _ _));
    reflexivity.
Defined.

Lemma find_id_some taskId (results : list Task) :
  (exists t, In t results /\ id t = taskId) ->
  exists t, List.find (fun t => String.eqb (id t) taskId) results = Some t
            /\ In t results /\ id t = taskId.
Proof.
  intros (t & Hin & Hid).
  destruct (List.find _ results) as [t' |] eqn:F.
  - exists t'. apply find_some in F as [Hin' E]. apply String.eqb_eq in E. auto.
  - apply (find_none _ _ F) in Hin. apply String.eqb_neq in Hin. contradiction.
Qed.

Lemma find_id_none taskId (results : list Task) :
  (forall t, In t results -> id t <> taskId) ->
  List.find (fun t => String.eqb (id t) taskId) results = None.
Proof.
  intros Hno. destruct (List.find _ results) as [t |] eqn:F; [| reflexivity].
  apply find_some in F as [Hin E]. apply String.eqb_eq in E.
  now apply Hno in Hin.
Qed.

(** C10.  The lookup of [getTask] and the inspection that follows it.  When
    the reply holds a record with the polled identifier, the lookup returns
    such a record and the inspection takes one of its three branches.  When
    no record matches, the lookup returns [undefined], reading [state]
    throws, and the loop stops without resolving, rejecting, logging or
    re-arming.  A branch of the classification is reached exactly when a
    record matches. *)
Theorem getTask_lookup_precondition
  (taskId : string) (results : list Task) (interval : value)
  (later : list (Response (list Task))) :
  let found := List.find (fun t => String.eqb (id t) taskId) results in
  let query := Post "getTasks" (TaskIdsBody [taskId]) in
  getTask (NetOk results) taskId = (inr found, [query])
  /\ ((exists t, In t results /\ id t = taskId) ->
      exists t, found = Some t /\ In t results /\ id t = taskId
                /\ classified (inspect taskId found) = true)
  /\ ((forall t, In t results -> id t <> taskId) ->
      found = None
      /\ (exists what, inspect taskId found = Throw (TypeError what)
            /\ poll interval taskId (NetOk results :: later)
               = (Abandoned (TypeError what), [query])))
  /\ (classified (inspect taskId found) = true
      <-> exists t, In t results /\ id t = taskId).
Proof.
  intros found query. split; [reflexivity|]. split; [| split].
  - intros Hex. destruct (find_id_some taskId results Hex) as (t & F & Hin & Hid).
    exists t. repeat split; try assumption.
    apply inspect_classified. eauto.
  - intros Hno. pose proof (find_id_none taskId results Hno) as F.
    subst found. split; [exact F|]. eexists. split.
    + rewrite F. reflexivity.
    + cbn [poll getTask]. rewrite F. reflexivity.
  - rewrite inspect_classified. split.
    + intros [t F]. exists t. apply find_some in F as [Hin E].
      apply String.eqb_eq in E. auto.
    + intros Hex. destruct (find_id_some taskId results Hex) as (t & F & _).
      eauto.
Qed.

Lemma getTask_lookup_precondition_witness :
  (exists t, List.find (fun t => String.eqb (id t) "t1")
               [Sample.task "in_progress" None] = Some t
             /\ In t [Sample.task "in_progress" None] /\ id t = "t1"
             /\ classified (inspect "t1" (List.find (fun t => String.eqb (id t) "t1")
                  [Sample.task "in_progress" None])) = true)
  /\ List.find (fun t => String.eqb (id t) "t2")
       [Sample.task "in_progress" None] = None.
Proof.
  split.
  - refine (proj1 (proj2 (getTask_lookup_precondition "t1"
      [Sample.task "in_progress" None] VUndefined [])) _).
    exists (Sample.task "in_progress" None). split; [left|]; reflexivity.
  - refine (proj1 (proj1 (proj2 (proj2 (getTask_lookup_precondition "t2"
      [Sample.task "in_progress" None] VUndefined []))) _)).
    intros t [<- | []]. discriminate.
Defined.

(** ** The archive accessors *)

Lemma fileString_found (zip : AdmZip) predicate e :
  List.find predicate zip = Some e -> trim (text e) <> "" ->
  fileString zip predicate = Resolved (trim (text e)).
Proof.
  intros F N. unfold fileString. rewrite F. simpl.
  apply nonEmpty_true in N. now rewrite N.
Qed.

Lemma fileString_blank (zip : AdmZip) predicate e :
  List.find predicate zip = Some e -> trim (text e) = "" ->
  fileString zip predicate = Rejected (Message "Could not find file in ZIP.").
Proof.
  intros F N. unfold fileString. rewrite F. simpl. now rewrite N.
Qed.

Lemma fileString_missing (zip : AdmZip) predicate :
  List.find predicate zip = None ->
  fileString zip predicate = Rejected (Message "Could not find file in ZIP.").
Proof. intros F. unfold fileString. now rewrite F. Qed.

Lemma find_first {A} (p : A -> bool) (pre post : list A) (x : A) :
  forallb (fun y => negb (p y)) pre = true -> p x = true ->
  List.find p (pre ++ x :: post) = Some x.
Proof.
  induction pre as [| y pre IH]; simpl; intros Hpre Hx.
  - now rewrite Hx.
  - apply andb_true_iff in Hpre as [Hy Hpre]. apply negb_true_iff in Hy.
    rewrite Hy. auto.
Qed.

Lemma getFileString_resolved `{BlockId} σ this remote idOrUrl predicate zip tr :
  getZip σ this remote idOrUrl = (Resolved zip, tr) ->
  getFileString σ this remote idOrUrl predicate = (fileString zip predicate, tr).
Proof.
  intros Hz. unfold getFileString. rewrite (andThen_resolved _ _ _ _ Hz).
  simpl. now rewrite app_nil_r.
Qed.

(** C2.  An archive whose only entry satisfies the predicate but holds
    nothing except white space: the entry is found, and [getFileString]
    still rejects with the message of the not-found case. *)
Theorem getFileString_rejects_found_blank_entry :
  let page := {| name := "Page.md"; text := "  " |} in
  let predicate := fun e => endsWith (name e) ".md" in
  let remote := Sample.service [Sample.finished] [page] in
  List.find predicate [page] = Some page
  /\ fst (@getZip specBlockId Sample.σ0 Sample.exporter remote Sample.pageId)
     = Resolved [page]
  /\ fst (@getFileString specBlockId Sample.σ0 Sample.exporter remote
            Sample.pageId predicate)
     = Rejected (Message "Could not find file in ZIP.").
Proof. vm_compute. auto. Qed.

(** C3, as the specification states it, fails: with [table_all.csv] stored ahead of
    [view_current.csv], the current-view accessor returns the full table. *)
Lemma getCsvString_current_view_order :
  let remote :=
    Sample.service [Sample.finished] [Sample.tableAll; Sample.viewCurrent] in
  fst (@getCsvString specBlockId Sample.σ0 Sample.exporter remote
         Sample.pageId (Some true))
  = Resolved (text Sample.tableAll)
  /\ fst (@getCsvString specBlockId Sample.σ0 Sample.exporter remote
           Sample.pageId (Some true))
     <> Resolved (text Sample.viewCurrent).
Proof. split; [vm_compute; reflexivity | vm_compute; discriminate]. Qed.

(** C3, as the code has it.  In an archive that holds [view_current.csv] and
    [table_all.csv], each with text left after trimming:
    - without the flag set, the accessor returns the text of
      [table_all.csv] when no entry ahead of it has a name ending in
      "_all.csv", wherever [view_current.csv] stands;
    - with the flag set, it returns the text of [view_current.csv] when no
      entry ahead of it has a name ending in ".csv", which requires
      [view_current.csv] to stand ahead of [table_all.csv]. *)
Theorem getCsvString_selects_first_match
  (B : BlockId) (σ : store) (this : NotionExporter) (remote : Remote)
  (idOrUrl : string) (zip : AdmZip) (tr : list Event)
  (cur all : IZipEntry) :
  getZip σ this remote idOrUrl = (Resolved zip, tr) ->
  name cur = "view_current.csv" -> name all = "table_all.csv" ->
  trim (text cur) <> "" -> trim (text all) <> "" ->
  (forall pre post,
     zip = pre ++ all :: post -> In cur zip ->
     forallb (fun e => negb (endsWith (name e) "_all.csv")) pre = true ->
     getCsvString σ this remote idOrUrl (Some false)
       = (Resolved (trim (text all)), tr)
     /\ getCsvString σ this remote idOrUrl None
       = (Resolved (trim (text all)), tr))
  /\ (forall pre post,
     zip = pre ++ cur :: post -> In all zip ->
     forallb (fun e => negb (endsWith (name e) ".csv")) pre = true ->
     getCsvString σ this remote idOrUrl (Some true)
       = (Resolved (trim (text cur)), tr)
     /\ In all post).
Proof.
  intros Hz Hcur Hall Ncur Nall. split.
  - intros pre post -> _ Hpre.
    assert (F : forall flag, default false flag = false ->
      List.find (csvPredicate flag) (pre ++ all :: post) = Some all).
    { intros flag Hf. apply find_first.
      - unfold csvPredicate. now rewrite Hf.
      - unfold csvPredicate. rewrite Hf, Hall. reflexivity. }
    unfold getCsvString.
    rewrite !(getFileString_resolved _ _ _ _ _ _ _ Hz).
    rewrite !(fileString_found _ _ all) by (auto using F).
    auto.
  - intros pre post -> Hin Hpre. split.
    + unfold getCsvString. rewrite (getFileString_resolved _ _ _ _ _ _ _ Hz).
      rewrite (fileString_found _ _ cur); auto.
      apply find_first; [exact Hpre|].
      unfold csvPredicate. simpl. rewrite Hcur. reflexivity.
    + apply in_app_or in Hin as [Hin | [E | Hin]]; [| | exact Hin].
      * rewrite forallb_forall in Hpre. apply Hpre in Hin.
        rewrite Hall in Hin. discriminate Hin.
      * rewrite <- E, Hcur in Hall. discriminate Hall.
Qed.

Lemma getCsvString_selects_first_match_witness :
  let remote :=
    Sample.service [Sample.finished] [Sample.viewCurrent; Sample.tableAll] in
  fst (@getCsvString specBlockId Sample.σ0 Sample.exporter remote
         Sample.pageId (Some false)) = Resolved "a,b,c"
  /\ fst (@getCsvString specBlockId Sample.σ0 Sample.exporter remote
           Sample.pageId (Some true)) = Resolved "a,b".
Proof.
  intros remote.
  assert (Hz : @getZip specBlockId Sample.σ0 Sample.exporter remote Sample.pageId
    = (Resolved [Sample.viewCurrent; Sample.tableAll],
       snd (@getZip specBlockId Sample.σ0 Sample.exporter remote Sample.pageId)))
    by (vm_compute; reflexivity).
  assert (Ncur : trim (text Sample.viewCurrent) <> "") by (vm_compute; discriminate).
  assert (Nall : trim (text Sample.tableAll) <> "") by (vm_compute; discriminate).
  destruct (getCsvString_selects_first_match specBlockId Sample.σ0
    Sample.exporter remote Sample.pageId _ _ Sample.viewCurrent Sample.tableAll
    Hz eq_refl eq_refl Ncur Nall) as [Hfull Hview].
  split.
  - destruct (Hfull [Sample.viewCurrent] [] eq_refl) as [E _].
    + left. reflexivity.
    + reflexivity.
    + rewrite E. reflexivity.
  - destruct (Hview [] [Sample.tableAll] eq_refl) as [E _].
    + right. left. reflexivity.
    + reflexivity.
    + rewrite E. reflexivity.
Defined.

(** ** The constructor and the configuration it merges *)

Lemma constructor_inv env σ tokenV2 fileToken cfg σ' this :
  constructor env σ tokenV2 fileToken cfg = inr (σ', this) ->
  config this = defaultConfig
  /\ σ' = fst (Object_assign σ defaultConfig cfg).
Proof.
  unfold constructor.
  destruct (argOrEnv env tokenV2Name tokenV2); [discriminate|].
  destruct (argOrEnv env fileTokenName fileToken); [discriminate|].
  destruct cfg; simpl; intros [= <- <-]; auto.
Qed.

Lemma read_after_assign σ d src k v :
  σ !! defaultConfig = Some d -> src !! k = Some v ->
  read (fst (Object_assign σ defaultConfig (Some src))) defaultConfig k = v.
Proof.
  intros Hd Hk. unfold read, get. simpl.
  rewrite lookup_alter_eq, Hd. simpl.
  now rewrite (lookup_union_Some_l src d k v Hk).
Qed.

(** C4.  What the constructor does to the defaults.  A client built with
    overrides writes them into the module-level object [defaultConfig] and
    keeps a reference to that very object; a client built afterwards
    without overrides refers to the same object and reads the first
    client's overrides in place of the original defaults. *)
Theorem constructor_overrides_reach_later_clients
  (env : gmap string string) (σ σ1 σ2 : store) (d overrides : object)
  (tokA fileA tokB fileB : option string) (a b : NotionExporter)
  (k : string) (v : value) :
  σ !! defaultConfig = Some d ->
  overrides !! k = Some v ->
  get d k <> v ->
  constructor env σ tokA fileA (Some overrides) = inr (σ1, a) ->
  constructor env σ1 tokB fileB None = inr (σ2, b) ->
  config a = defaultConfig /\ config b = defaultConfig
  /\ σ1 !! defaultConfig = Some (overrides ∪ d)
  /\ read σ2 (config b) k = v
  /\ read σ2 (config b) k <> get d k
  /\ read σ2 defaultConfig k <> read σ defaultConfig k.
Proof.
  intros Hd Hk Hne Ha Hb.
  apply constructor_inv in Ha as [Ca E1].
  apply constructor_inv in Hb as [Cb E2].
  change (σ2 = σ1) in E2. subst σ2.
  assert (R : read σ1 defaultConfig k = v)
    by (subst σ1; eauto using read_after_assign).
  assert (D : read σ defaultConfig k = get d k)
    by (unfold read; now rewrite Hd).
  rewrite Cb, R, D. repeat split; try congruence.
  subst σ1. simpl. now rewrite lookup_alter_eq, Hd.
Qed.

Lemma constructor_overrides_reach_later_clients_witness :
  exists σ1 σ2 a b,
    constructor ∅ Sample.σ0 (Some "a") (Some "b")
      (Some {[ "recursive" := VBool true ]}) = inr (σ1, a)
    /\ constructor ∅ σ1 (Some "a") (Some "b") None = inr (σ2, b)
    /\ get Sample.defaults "recursive" = VBool false
    /\ read σ2 (config b) "recursive" = VBool true.
Proof.
  destruct (constructor ∅ Sample.σ0 (Some "a") (Some "b")
              (Some {[ "recursive" := VBool true ]})) as [e | [σ1 a]] eqn:Ea;
    [vm_compute in Ea; discriminate Ea|].
  destruct (constructor ∅ σ1 (Some "a") (Some "b") None) as [e | [σ2 b]] eqn:Eb.
  { unfold constructor in Eb. vm_compute argOrEnv in Eb.
    destruct (Object_assign σ1 defaultConfig None). discriminate Eb. }
  exists σ1, σ2, a, b. split; [reflexivity|]. split; [exact Eb|].
  split; [reflexivity|].
  refine (proj1 (proj2 (proj2 (proj2
    (constructor_overrides_reach_later_clients ∅ Sample.σ0 σ1 σ2
       Sample.defaults {[ "recursive" := VBool true ]}
       (Some "a") (Some "b") (Some "a") (Some "b") a b "recursive" (VBool true)
       _ _ _ Ea Eb))))).
  - reflexivity.
  - reflexivity.
  - vm_compute. discriminate.
Defined.

(** A client built earlier is affected as well: its export calls read the
    shared object at call time. *)
Lemma constructor_changes_existing_client
  (env : gmap string string) (σ σ1 : store) (d overrides : object)
  (tok file : option string) (a b : NotionExporter) (k : string) (v : value) :
  σ !! defaultConfig = Some d -> overrides !! k = Some v ->
  config a = defaultConfig ->
  constructor env σ tok file (Some overrides) = inr (σ1, b) ->
  read σ1 (config a) k = v.
Proof.
  intros Hd Hk Ca Hb. apply constructor_inv in Hb as [_ ->].
  rewrite Ca. eauto using read_after_assign.
Qed.

(** ** The body of the submission *)

Lemma exportOptions_lookup (cfg : object) (blockId k : string) :
  exportOptions (request (enqueueBody cfg blockId)) !! k =
    if decide (k = "recursive" \/ k = "pollInterval") then
      (if decide (k = "exportType") then Some (VString "markdown") else None)
    else match cfg !! k with
         | Some v => Some v
         | None => if decide (k = "exportType") then Some (VString "markdown")
                   else None
         end.
Proof.
  unfold enqueueBody, spread. simpl. rewrite lookup_union.
  destruct (decide (k = "recursive" \/ k = "pollInterval")) as [[-> | ->] | N].
  - rewrite lookup_delete_ne, lookup_delete_eq by discriminate. reflexivity.
  - rewrite lookup_delete_eq. reflexivity.
  - rewrite !lookup_delete_ne by (intros <-; tauto).
    destruct (decide (k = "exportType")) as [-> | N'].
    + rewrite lookup_singleton_eq. now destruct (cfg !! "exportType").
    + rewrite lookup_singleton_ne by congruence. now destruct (cfg !! k).
Qed.

(** C6.  The body [getTaskId] posts for a valid identifier, for any merged
    configuration [cfg]: no property named [pollInterval] occurs in it; its
    [recursive] flag is the configured one coerced to a boolean, [false]
    when the option is absent; every other configured option appears in
    [exportOptions] with its configured value and nothing else does, except
    [exportType], which is "markdown" unless the configuration sets it. *)
Theorem getTaskId_request_body
  (B : BlockId) (σ : store) (this : NotionExporter) (remote : Remote)
  (idOrUrl blockId : string) (cfg : object) :
  σ !! config this = Some cfg ->
  resolve idOrUrl = Some blockId -> blockId <> "" ->
  let body := enqueueBody cfg blockId in
  let options := exportOptions (request body) in
  snd (getTaskId σ this remote idOrUrl) = [Post "enqueueTask" (TaskBody body)]
  /\ ("pollInterval" ∉ bodyKeys body)
  /\ recursive (request body) = truthy (get cfg "recursive")
  /\ (cfg !! "recursive" = None -> recursive (request body) = false)
  /\ (forall k v, k <> "recursive" -> k <> "pollInterval" ->
        cfg !! k = Some v -> options !! k = Some v)
  /\ (cfg !! "exportType" = None ->
        options !! "exportType" = Some (VString "markdown"))
  /\ (forall k, k <> "exportType" -> cfg !! k = None -> options !! k = None)
  /\ block_id (request body) = blockId
  /\ shouldExportComments (request body) = false
  /\ eventName body = "exportBlock".
Proof.
  intros Hcfg Hid Hne body options.
  split; [| split; [| split; [| split; [| split; [| split; [| split]]]]]].
  - unfold getTaskId. unfold resolve in Hid. rewrite Hid.
    apply nonEmpty_true in Hne. rewrite Hne, Hcfg. simpl.
    fold body. now destruct (enqueueTask remote body).
  - unfold bodyKeys. rewrite not_elem_of_union. split.
    + rewrite elem_of_list_to_set, list_elem_of_In. simpl.
      intros H. repeat destruct H as [H | H]; try discriminate H. exact H.
    + rewrite not_elem_of_dom. fold options. subst options body.
      rewrite exportOptions_lookup. reflexivity.
  - reflexivity.
  - intros E. simpl. unfold get. now rewrite E.
  - intros k v N1 N2 E. subst options body. rewrite exportOptions_lookup, E.
    destruct (decide _) as [[-> | ->] |]; [congruence | congruence | reflexivity].
  - intros E. subst options body. rewrite exportOptions_lookup, E. reflexivity.
  - intros k N E. subst options body. rewrite exportOptions_lookup, E.
    destruct (decide (k = "exportType")); [congruence|].
    now destruct (decide _).
  - auto.
Qed.

Lemma getTaskId_request_body_witness :
  let cfg : object :=
    {[ "recursive" := VBool true; "pollInterval" := VNumber 500;
       "exportType" := VString "markdown"; "timeZone" := VString "UTC" ]} in
  let σ : store := {[ defaultConfig := cfg ]} in
  let body := enqueueBody cfg Sample.pageId in
  snd (@getTaskId specBlockId σ Sample.exporter (Sample.service [] [])
         Sample.pageId) = [Post "enqueueTask" (TaskBody body)]
  /\ recursive (request body) = true
  /\ exportOptions (request body)
     = {[ "exportType" := VString "markdown"; "timeZone" := VString "UTC" ]}.
Proof.
  intros cfg σ body.
  split; [| split; vm_compute; reflexivity].
  refine (proj1 (getTaskId_request_body specBlockId σ Sample.exporter
    (Sample.service [] []) Sample.pageId Sample.pageId cfg _ _ _)).
  - reflexivity.
  - vm_compute. reflexivity.
  - discriminate.
Defined.

(** ** Fail fast on an invalid identifier *)

(** C8.  When the helpers of "./blockId" find no valid identifier in the
    input, [getTaskId] rejects with its invalid-identifier message and the
    trace of effects is empty: no request has been issued.  The same holds
    for every operation that starts with [getTaskId]. *)
Theorem getTaskId_fails_fast
  (B : BlockId) (σ : store) (this : NotionExporter) (remote : Remote)
  (idOrUrl : string) (predicate : IZipEntry -> bool) :
  present (resolve idOrUrl) = false ->
  let invalid := Message ("Invalid URL or blockId: " +:+ idOrUrl) in
  getTaskId σ this remote idOrUrl = (Rejected invalid, [])
  /\ getZipUrl σ this remote idOrUrl = (Rejected invalid, [])
  /\ getZip σ this remote idOrUrl = (Rejected invalid, [])
  /\ getFileString σ this remote idOrUrl predicate = (Rejected invalid, [])
  /\ List.filter isRequest (snd (getTaskId σ this remote idOrUrl)) = [].
Proof.
  intros Hinv invalid.
  assert (E : getTaskId σ this remote idOrUrl = (Rejected invalid, [])).
  { unfold getTaskId. unfold resolve in Hinv.
    destruct (validateUuid (blockIdFromUrl idOrUrl)) as [blockId |];
      [| reflexivity].
    simpl in Hinv. now rewrite Hinv. }
  assert (U : getZipUrl σ this remote idOrUrl = (Rejected invalid, []))
    by (unfold getZipUrl; now rewrite E).
  assert (Z : getZip σ this remote idOrUrl = (Rejected invalid, []))
    by (unfold getZip; now rewrite U).
  repeat split; try assumption.
  - unfold getFileString. now rewrite Z.
  - now rewrite E.
Qed.

Lemma getTaskId_fails_fast_witness :
  @getTaskId specBlockId Sample.σ0 Sample.exporter (Sample.service [] [])
    "https://www.notion.so/Not-a-page"
  = (Rejected (Message "Invalid URL or blockId: https://www.notion.so/Not-a-page"),
     []).
Proof.
  refine (proj1 (getTaskId_fails_fast specBlockId Sample.σ0 Sample.exporter
    (Sample.service [] []) "https://www.notion.so/Not-a-page"
    (fun _ => true) _)).
  vm_compute. reflexivity.
Defined.

(** ** The identifier resolver *)

Module blockIdFacts.
Import blockId.

Ltac by_cases_on c :=
  destruct c as [[] [] [] [] [] [] [] []]; vm_compute; congruence.

Lemma isHex_not_dash c : isHex c = true -> isDash c = false.
Proof. by_cases_on c. Qed.

Lemma hexOrDash_not_slash c : isHex c || isDash c = true -> isSlash c = false.
Proof. by_cases_on c. Qed.

Lemma isHex_toLower c : isHex c = true -> isLowerHex (toLower c) = true.
Proof. by_cases_on c. Qed.

Lemma isLowerHex_fixed c : isLowerHex c = true -> toLower c = c.
Proof. by_cases_on c. Qed.

Lemma lastSegmentRev_no_slash r :
  forallb (fun c => isHex c || isDash c) r = true -> lastSegmentRev r = r.
Proof.
  induction r as [| c r IH]; simpl; [reflexivity|].
  intros H. apply andb_true_iff in H as [Hc Hr].
  rewrite (hexOrDash_not_slash c Hc). f_equal. auto.
Qed.

Lemma removeDashes_cons_hex c r :
  isHex c = true -> removeDashes (c :: r) = c :: removeDashes r.
Proof.
  intros H. unfold removeDashes. simpl. now rewrite (isHex_not_dash c H).
Qed.

Lemma removeDashes_cons_dash c r :
  isDash c = true -> removeDashes (c :: r) = removeDashes r.
Proof. intros H. unfold removeDashes. simpl. now rewrite H. Qed.

(** Reading backwards over digits and dashes that hold exactly [n] digits
    takes a token with all of these digits. *)
Lemma trailingTokenRev_exact r : forall n,
  forallb (fun c => isHex c || isDash c) r = true ->
  length (removeDashes r) = n ->
  exists t, trailingTokenRev n r = Some t /\ removeDashes t = removeDashes r.
Proof.
  induction r as [| c r IH]; intros n Hall Hlen.
  - simpl in Hlen. subst n. exists []. auto.
  - simpl in Hall. apply andb_true_iff in Hall as [Hc Hr].
    destruct n as [| n].
    + exists []. split; [reflexivity|].
      symmetry. now apply length_zero_iff_nil.
    + cbn [trailingTokenRev]. destruct (isHex c) eqn:Hx.
      * rewrite removeDashes_cons_hex in Hlen by assumption.
        simpl in Hlen. injection Hlen as Hlen.
        destruct (IH n Hr Hlen) as (t & -> & Et). exists (c :: t).
        split; [reflexivity|]. rewrite !removeDashes_cons_hex by assumption.
        now rewrite Et.
      * simpl in Hc. rewrite Hc.
        rewrite removeDashes_cons_dash in Hlen by assumption.
        destruct (IH (S n) Hr Hlen) as (t & -> & Et). exists (c :: t).
        split; [reflexivity|]. now rewrite !removeDashes_cons_dash by assumption.
Qed.

(** A token is only found where there are enough digits to read. *)
Lemma trailingTokenRev_needs_digits r : forall n t,
  trailingTokenRev n r = Some t -> n <= length (List.filter isHex r).
Proof.
  induction r as [| c r IH]; intros [| n] t; simpl; try lia; [discriminate|].
  destruct (isHex c) eqn:Hx.
  - destruct (trailingTokenRev n r) as [t' |] eqn:E; [| discriminate].
    intros _. apply IH in E. simpl. lia.
  - destruct (isDash c); [| discriminate].
    destruct (trailingTokenRev (S n) r) as [t' |] eqn:E; [| discriminate].
    intros _. now apply IH in E.
Qed.

Lemma lastSegmentRev_digits r :
  length (List.filter isHex (lastSegmentRev r)) <= length (List.filter isHex r).
Proof.
  induction r as [| c r IH]; simpl; [lia|].
  destruct (isSlash c); simpl; destruct (isHex c); simpl; lia.
Qed.

Lemma removeDashes_hex r :
  forallb (fun c => isHex c || isDash c) r = true ->
  forallb isHex (removeDashes r) = true.
Proof.
  induction r as [| c r IH]; simpl; [reflexivity|].
  intros H. apply andb_true_iff in H as [Hc Hr].
  unfold removeDashes. simpl. destruct (isDash c) eqn:Hd; simpl.
  - now apply IH.
  - rewrite orb_false_r in Hc. rewrite Hc. now apply IH.
Qed.

Lemma toLowerCase_lowerHex ds :
  forallb isHex ds = true -> forallb isLowerHex (toLowerCase ds) = true.
Proof.
  induction ds as [| c ds IH]; simpl; [reflexivity|].
  intros H. apply andb_true_iff in H as [Hc Hds].
  now rewrite (isHex_toLower c Hc), IH.
Qed.

End blockIdFacts.

Lemma length_string_of_list_ascii (l : list ascii) :
  String.length (string_of_list_ascii l) = length l.
Proof. induction l as [| c l IH]; simpl; congruence. Qed.

Lemma resolve_dashedHex32 (s : string) :
  dashedHex32 s ->
  @resolve specBlockId s =
    Some (string_of_list_ascii
            (blockId.toLowerCase (blockId.removeDashes (list_ascii_of_string s)))).
Proof.
  intros [Hall Hlen]. cbv zeta in Hall, Hlen.
  set (cs := list_ascii_of_string s) in *.
  assert (Hrev : forallb (fun c => blockId.isHex c || blockId.isDash c) (rev cs) = true).
  { rewrite forallb_forall in *. intros c Hc. apply Hall. now apply in_rev. }
  assert (Hlenrev : length (blockId.removeDashes (rev cs)) = 32).
  { unfold blockId.removeDashes in *. now rewrite filter_rev, length_rev. }
  destruct (blockIdFacts.trailingTokenRev_exact (rev cs) 32 Hrev Hlenrev)
    as (t & Ht & Et).
  unfold resolve. cbn [blockIdFromUrl validateUuid specBlockId].
  unfold blockId.blockIdFromUrl. fold cs.
  rewrite (blockIdFacts.lastSegmentRev_no_slash _ Hrev), Ht.
  cbn [option_map blockId.validateUuid].
  rewrite list_ascii_of_string_of_list_ascii.
  assert (Ed : blockId.removeDashes (rev t) = blockId.removeDashes cs).
  { unfold blockId.removeDashes in *.
    rewrite filter_rev, Et, filter_rev. apply rev_involutive. }
  rewrite Ed, Hlen, (blockIdFacts.removeDashes_hex cs Hall). reflexivity.
Qed.

(** C9.  An input made of 32 hexadecimal digits with dashes anywhere, in
    either letter case: the resolver returns its digits in lower case, a
    string of exactly 32 lower-case hexadecimal characters, and any other
    such input with the same digits up to case resolves to the same
    string, wherever its dashes are. *)
Theorem resolver_normalizes_dashed_hex (s : string) :
  dashedHex32 s ->
  let digits :=
    blockId.toLowerCase (blockId.removeDashes (list_ascii_of_string s)) in
  @resolve specBlockId s = Some (string_of_list_ascii digits)
  /\ String.length (string_of_list_ascii digits) = 32
  /\ forallb blockId.isLowerHex digits = true
  /\ (forall s', dashedHex32 s' ->
        blockId.toLowerCase (blockId.removeDashes (list_ascii_of_string s'))
          = digits ->
        @resolve specBlockId s' = @resolve specBlockId s).
Proof.
  intros Hs digits. pose proof (resolve_dashedHex32 s Hs) as E.
  destruct Hs as [Hall Hlen]. cbv zeta in Hall, Hlen.
  split; [exact E|]. split; [| split].
  - rewrite length_string_of_list_ascii. subst digits.
    unfold blockId.toLowerCase. now rewrite length_map.
  - apply blockIdFacts.toLowerCase_lowerHex.
    now apply blockIdFacts.removeDashes_hex.
  - intros s' Hs' Hd. rewrite E, (resolve_dashedHex32 s' Hs'). now rewrite Hd.
Qed.

Lemma resolver_normalizes_dashed_hex_witness :
  @resolve specBlockId "83715D77-03ee-4b86-99B5-e659a4712dd8"
    = Some "83715d7703ee4b8699b5e659a4712dd8"
  /\ @resolve specBlockId "-8371-5d7703EE4B8699b5e659a471--2dd8-"
    = @resolve specBlockId "83715D77-03ee-4b86-99B5-e659a4712dd8".
Proof.
  assert (H1 : dashedHex32 "83715D77-03ee-4b86-99B5-e659a4712dd8")
    by (split; vm_compute; reflexivity).
  assert (H2 : dashedHex32 "-8371-5d7703EE4B8699b5e659a471--2dd8-")
    by (split; vm_compute; reflexivity).
  destruct (resolver_normalizes_dashed_hex _ H1) as (E & _ & _ & Hsame).
  split; [exact E|].
  apply Hsame; [exact H2 | vm_compute; reflexivity].
Defined.

(** The resolver of the specification finds no identifier in an input with
    fewer than 32 hexadecimal digits. *)
Lemma resolve_needs_32_digits (s : string) :
  length (List.filter blockId.isHex (list_ascii_of_string s)) < 32 ->
  @resolve specBlockId s = None.
Proof.
  intros Hfew. unfold resolve. cbn [blockIdFromUrl validateUuid specBlockId].
  unfold blockId.blockIdFromUrl.
  destruct (blockId.trailingTokenRev 32 _) as [t |] eqn:E; [| reflexivity].
  apply blockIdFacts.trailingTokenRev_needs_digits in E.
  pose proof (blockIdFacts.lastSegmentRev_digits (rev (list_ascii_of_string s))) as L.
  rewrite filter_rev, length_rev in L. lia.
Qed.

Lemma trailingTokenRev_prefix r : forall n t,
  blockId.trailingTokenRev n r = Some t ->
  exists rest, r = t ++ rest
    /\ forallb (fun c => blockId.isHex c || blockId.isDash c) t = true
    /\ length (blockId.removeDashes t) = n.
Proof.
  induction r as [| c r IH]; intros [| n] t; simpl.
  - intros [= <-]. exists []. auto.
  - discriminate.
  - intros [= <-]. exists (c :: r). auto.
  - destruct (blockId.isHex c) eqn:Hx.
    + destruct (blockId.trailingTokenRev n r) as [t' |] eqn:E; [| discriminate].
      intros [= <-]. destruct (IH _ _ E) as (rest & -> & Hall & Hlen).
      exists rest. split; [reflexivity|]. cbn [forallb]. rewrite Hx, Hall.
      split; [reflexivity|].
      rewrite blockIdFacts.removeDashes_cons_hex by assumption.
      cbn [length]. congruence.
    + destruct (blockId.isDash c) eqn:Hd; [| discriminate].
      destruct (blockId.trailingTokenRev (S n) r) as [t' |] eqn:E; [| discriminate].
      intros [= <-]. destruct (IH _ _ E) as (rest & -> & Hall & Hlen).
      exists rest. split; [reflexivity|]. cbn [forallb]. rewrite Hx, Hd, Hall.
      split; [reflexivity|].
      now rewrite blockIdFacts.removeDashes_cons_dash by assumption.
Qed.

Lemma lastSegmentRev_prefix r : exists rest, r = blockId.lastSegmentRev r ++ rest.
Proof.
  induction r as [| c r [rest IH]]; simpl.
  - exists []. reflexivity.
  - destruct (blockId.isSlash c).
    + exists (c :: r). reflexivity.
    + exists rest. simpl. congruence.
Qed.

(** The resolver of the specification finds an identifier only in an input
    that contains one. *)
Lemma resolve_only_contained (s : string) :
  ~ containsIdentifier s -> @resolve specBlockId s = None.
Proof.
  intros Hno. unfold resolve. cbn [blockIdFromUrl validateUuid specBlockId].
  unfold blockId.blockIdFromUrl.
  destruct (blockId.trailingTokenRev 32 _) as [t |] eqn:E; [| reflexivity].
  exfalso. apply Hno.
  destruct (trailingTokenRev_prefix _ _ _ E) as (rest & Eseg & Hall & Hlen).
  destruct (lastSegmentRev_prefix (rev (list_ascii_of_string s))) as [rest' Er].
  rewrite Eseg in Er. apply (f_equal (@rev ascii)) in Er.
  rewrite rev_involutive, !rev_app_distr in Er.
  exists (rev rest' ++ rev rest), (string_of_list_ascii (rev t)), [].
  rewrite list_ascii_of_string_of_list_ascii. split.
  - rewrite Er, app_nil_r. now rewrite <- app_assoc.
  - split; cbv zeta; rewrite list_ascii_of_string_of_list_ascii.
    + rewrite forallb_forall in *. intros c Hc. apply Hall. now apply in_rev.
    + unfold blockId.removeDashes in *. now rewrite filter_rev, length_rev.
Qed.

(** * Further properties of the exporter *)

(** ** Strings *)

Module JSFacts.

Local Arguments String.append !_ _ / : simpl nomatch.

Lemma append_nil_r (s : string) : s +:+ "" = s.
Proof. induction s as [| c s IH]; simpl; congruence. Qed.

Lemma append_assoc (a b c : string) : (a +:+ b) +:+ c = a +:+ b +:+ c.
Proof. induction a as [| x a IH]; simpl; congruence. Qed.

Lemma length_append (a b : string) :
  String.length (a +:+ b) = String.length a + String.length b.
Proof. induction a as [| x a IH]; simpl; congruence. Qed.

Lemma rev_app_append (s1 s2 : string) :
  String.rev_app s1 s2 = String.rev s1 +:+ s2.
Proof.
  unfold String.rev. revert s2.
  induction s1 as [| c s1 IH]; intros s2; simpl; [reflexivity|].
  rewrite (IH (String c s2)), (IH (String c "")), append_assoc. reflexivity.
Qed.

Lemma rev_cons (c : ascii) (s : string) :
  String.rev (String c s) = String.rev s +:+ String c "".
Proof. unfold String.rev at 1. simpl. apply rev_app_append. Qed.

Lemma rev_append (a b : string) :
  String.rev (a +:+ b) = String.rev b +:+ String.rev a.
Proof.
  induction a as [| c a IH]; simpl.
  - now rewrite append_nil_r.
  - now rewrite !rev_cons, IH, append_assoc.
Qed.

Lemma rev_involutive (s : string) : String.rev (String.rev s) = s.
Proof.
  induction s as [| c s IH]; [reflexivity|].
  now rewrite rev_cons, rev_append, IH.
Qed.

(** *** [trim] *)

Lemma trimStart_cases (s : string) :
  trimStart s = ""
  \/ exists c u, trimStart s = String c u /\ isWhiteSpace c = false.
Proof.
  induction s as [| c s IH]; simpl; [now left|].
  destruct (isWhiteSpace c) eqn:W; [exact IH|]. right. eauto.
Qed.

Lemma trimStart_idem (s : string) : trimStart (trimStart s) = trimStart s.
Proof.
  destruct (trimStart_cases s) as [-> | (c & u & -> & W)]; [reflexivity|].
  simpl. now rewrite W.
Qed.

Lemma trimStart_append (a b : string) :
  trimStart (a +:+ b) =
    match trimStart a with
    | EmptyString => trimStart b
    | String _ _ => trimStart a +:+ b
    end.
Proof.
  induction a as [| c a IH]; simpl; [reflexivity|].
  destruct (isWhiteSpace c); [exact IH | reflexivity].
Qed.

Lemma trimEnd_idem (s : string) : trimEnd (trimEnd s) = trimEnd s.
Proof. unfold trimEnd. now rewrite rev_involutive, trimStart_idem. Qed.

(** [trimEnd] keeps a leading character that is no white space. *)
Lemma trimEnd_cons (c : ascii) (s : string) :
  isWhiteSpace c = false -> trimEnd (String c s) = String c (trimEnd s).
Proof.
  intros W. unfold trimEnd. rewrite rev_cons, trimStart_append.
  destruct (trimStart (String.rev s)) as [| x u] eqn:E.
  - simpl. now rewrite W.
  - change (String.rev (String x u +:+ String c "") = String c (String.rev (String x u))).
    now rewrite rev_append.
Qed.

Lemma trim_idem (s : string) : trim (trim s) = trim s.
Proof.
  unfold trim.
  destruct (trimStart_cases s) as [-> | (c & u & -> & W)]; [reflexivity|].
  rewrite (trimEnd_cons c u W). simpl. rewrite W.
  now rewrite (trimEnd_cons c _ W), trimEnd_idem.
Qed.

(** The first character of a trimmed text is no white space. *)
Lemma trim_head (s : string) (c : ascii) (u : string) :
  trim s = String c u -> isWhiteSpace c = false.
Proof.
  unfold trim.
  destruct (trimStart_cases s) as [-> | (c' & u' & -> & W)]; [discriminate|].
  rewrite (trimEnd_cons c' u' W). now intros [= <- _].
Qed.

(** Neither is its last one. *)
Lemma trim_last (s u : string) (c : ascii) :
  trim s = u +:+ String c "" -> isWhiteSpace c = false.
Proof.
  unfold trim, trimEnd. intros E.
  apply (f_equal String.rev) in E.
  rewrite rev_involutive, rev_append in E. simpl in E.
  destruct (trimStart_cases (String.rev (trimStart s)))
    as [E' | (c' & u' & E' & W)]; rewrite E' in E; [discriminate|].
  now injection E as -> _.
Qed.

(** *** [endsWith] *)

Lemma substring_all (s : string) : substring 0 (String.length s) s = s.
Proof. induction s as [| c s IH]; simpl; congruence. Qed.

Lemma substring_skip (pre s : string) (m : nat) :
  substring (String.length pre) m (pre +:+ s) = substring 0 m s.
Proof. induction pre as [| c pre IH]; simpl; [reflexivity | exact IH]. Qed.

Lemma substring_split (s : string) : forall k, k <= String.length s ->
  s = substring 0 k s +:+ substring k (String.length s - k) s.
Proof.
  induction s as [| c s IH]; intros [| k] Hk; simpl in *; try reflexivity; try lia.
  - now rewrite substring_all.
  - f_equal. apply IH. lia.
Qed.

Lemma endsWith_iff (s suffix : string) :
  endsWith s suffix = true <-> exists pre, s = pre +:+ suffix.
Proof.
  unfold endsWith. rewrite andb_true_iff, Nat.leb_le, String.eqb_eq. split.
  - intros [Hle E].
    exists (substring 0 (String.length s - String.length suffix) s).
    pose proof (substring_split s (String.length s - String.length suffix)) as S.
    replace (String.length s - (String.length s - String.length suffix))
      with (String.length suffix) in S by lia.
    rewrite E in S. apply S. lia.
  - intros [pre ->]. rewrite length_append. split; [lia|].
    replace (String.length pre + String.length suffix - String.length suffix)
      with (String.length pre) by lia.
    rewrite substring_skip. apply substring_all.
Qed.

End JSFacts.

(** ** Credentials *)

Lemma fetchEnv_inr env envName t :
  fetchEnv env envName = inr t ->
  exists v, env !! envName = Some v /\ t = trim v /\ t <> "".
Proof.
  unfold fetchEnv. destruct (env !! envName) as [v |]; cbn [option_map];
    [| discriminate].
  destruct (nonEmpty (trim v)) eqn:N; [| discriminate].
  intros [= <-]. exists v. apply nonEmpty_true in N. auto.
Qed.

Lemma argOrEnv_with_argument env envName a :
  trim a <> "" -> argOrEnv env envName (Some a) = inr (trim a).
Proof.
  intros N. unfold argOrEnv. cbn [option_map].
  apply nonEmpty_true in N. rewrite N. now rewrite N.
Qed.

Lemma argOrEnv_without_argument env envName arg :
  arg = None \/ (exists a, arg = Some a /\ trim a = "") ->
  argOrEnv env envName arg = fetchEnv env envName.
Proof.
  intros [-> | (a & -> & E)]; unfold argOrEnv, fetchEnv; cbn [option_map].
  - reflexivity.
  - rewrite E. reflexivity.
Qed.

(** X1.  [argOrEnv] prefers its argument: an argument with text left after
    trimming is returned trimmed, whatever the environment holds; with no
    argument, or a blank one, the result is that of reading the environment
    variable alone, as [fetchEnv] of src/test.ts does. *)
Theorem argOrEnv_argument_first
  (env : gmap string string) (envName : string) (arg : option string) :
  (forall a, arg = Some a -> trim a <> "" ->
     argOrEnv env envName arg = inr (trim a))
  /\ (arg = None \/ (exists a, arg = Some a /\ trim a = "") ->
      argOrEnv env envName arg = fetchEnv env envName).
Proof.
  split.
  - intros a ->. apply argOrEnv_with_argument.
  - apply argOrEnv_without_argument.
Qed.

Lemma argOrEnv_argument_first_witness :
  argOrEnv {[ "NOTION_TOKEN" := "from-env" ]} "NOTION_TOKEN" (Some " abc ")
    = inr "abc"
  /\ argOrEnv {[ "NOTION_TOKEN" := "from-env" ]} "NOTION_TOKEN" (Some "   ")
    = inr "from-env".
Proof.
  split.
  - refine (proj1 (argOrEnv_argument_first _ "NOTION_TOKEN" (Some " abc "))
              " abc " eq_refl _).
    vm_compute. discriminate.
  - refine (eq_trans (proj2 (argOrEnv_argument_first _ "NOTION_TOKEN" (Some "   ")) _) _).
    + right. exists "   ". split; reflexivity.
    + vm_compute. reflexivity.
Defined.

(** X2.  A token returned by [argOrEnv] is never empty and carries no white
    space at either end; it is the trimmed argument or the trimmed
    environment variable. *)
Theorem argOrEnv_token_clean
  (env : gmap string string) (envName : string) (arg : option string) (t : string) :
  argOrEnv env envName arg = inr t ->
  t <> "" /\ trimmed t
  /\ (arg = Some t \/ env !! envName = Some t
      \/ (exists raw, (arg = Some raw \/ env !! envName = Some raw) /\ t = trim raw)).
Proof.
  intros H.
  assert (S : exists raw, (arg = Some raw \/ env !! envName = Some raw)
                          /\ t = trim raw /\ t <> "").
  { destruct arg as [a |].
    - destruct (string_dec (trim a) "") as [E | N].
      + rewrite argOrEnv_without_argument in H by (right; eauto).
        apply fetchEnv_inr in H as (v & Hv & -> & N). eauto 6.
      + rewrite (argOrEnv_with_argument env envName a N) in H.
        injection H as <-. eauto 6.
    - rewrite argOrEnv_without_argument in H by now left.
      apply fetchEnv_inr in H as (v & Hv & -> & N). eauto 6. }
  destruct S as (raw & Hsrc & -> & N).
  split; [exact N|]. split; [apply JSFacts.trim_idem|]. eauto.
Qed.

Lemma argOrEnv_token_clean_witness :
  trimmed "abc" /\ "abc" <> "".
Proof.
  destruct (argOrEnv_token_clean ∅ "NOTION_TOKEN" (Some "  abc
 ") "abc") as (N & T & _).
  - vm_compute. reflexivity.
  - split; assumption.
Defined.

Lemma argOrEnv_inl_iff
  (env : gmap string string) (envName : string) (arg : option string) :
  (exists e, argOrEnv env envName arg = inl e)
  <-> (forall a, arg = Some a -> trim a = "")
      /\ (forall v, env !! envName = Some v -> trim v = "").
Proof.
  assert (F : (exists e, fetchEnv env envName = inl e)
              <-> (forall v, env !! envName = Some v -> trim v = "")).
  { unfold fetchEnv. destruct (env !! envName) as [v |]; cbn [option_map].
    - destruct (nonEmpty (trim v)) eqn:N.
      + apply nonEmpty_true in N. split.
        * intros [e H]. discriminate H.
        * intros H. now specialize (H v eq_refl).
      + apply nonEmpty_false in N. split; [| eauto].
        intros _ v' [= <-]. exact N.
    - split; [intros _ v' H; discriminate H | eauto]. }
  pose proof (argOrEnv_without_argument env envName arg) as Fallback.
  destruct arg as [a |].
  - destruct (string_dec (trim a) "") as [E | N].
    + rewrite Fallback, F by (right; eauto). split.
      * intros Hv. split; [now intros a' [= <-] | exact Hv].
      * now intros [_ Hv].
    + rewrite (argOrEnv_with_argument env envName a N). split.
      * intros [e H]. discriminate H.
      * intros [Ha _]. now specialize (Ha a eq_refl).
  - rewrite Fallback, F by now left. split.
    + intros Hv. split; [intros a H; discriminate H | exact Hv].
    + now intros [_ Hv].
Qed.

Lemma argOrEnv_missing_message
  (env : gmap string string) (envName : string) (arg : option string) (e : Reason) :
  argOrEnv env envName arg = inl e -> e = JsError ("Missing " +:+ envName).
Proof.
  unfold argOrEnv.
  destruct (match option_map trim arg with
            | Some a => if nonEmpty a then Some a
                        else option_map trim (env !! envName)
            | None => option_map trim (env !! envName)
            end) as [t |]; [destruct (nonEmpty t) |]; congruence.
Qed.

(** X3.  [argOrEnv] throws exactly when neither the argument nor the
    environment variable has text left after trimming, and the error it
    throws names the variable. *)
Theorem argOrEnv_missing
  (env : gmap string string) (envName : string) (arg : option string) :
  ((exists e, argOrEnv env envName arg = inl e)
   <-> (forall a, arg = Some a -> trim a = "")
       /\ (forall v, env !! envName = Some v -> trim v = ""))
  /\ (forall e, argOrEnv env envName arg = inl e ->
        e = JsError ("Missing " +:+ envName)).
Proof.
  split; [apply argOrEnv_inl_iff | apply argOrEnv_missing_message].
Qed.

Lemma argOrEnv_missing_witness :
  argOrEnv {[ "NOTION_TOKEN" := "  " ]} "NOTION_TOKEN" (Some "")
  = inl (JsError "Missing NOTION_TOKEN").
Proof.
  destruct (argOrEnv_missing {[ "NOTION_TOKEN" := "  " ]} "NOTION_TOKEN" (Some ""))
    as [[_ Fails] Names].
  destruct Fails as [e He].
  - split.
    + intros a [= <-]. reflexivity.
    + intros v Hv. vm_compute in Hv. injection Hv as <-. reflexivity.
  - rewrite He. f_equal. now apply Names.
Defined.

(** ** The constructor *)




Lemma read_assign σ d cfg k :
  σ !! defaultConfig = Some d ->
  read (fst (Object_assign σ defaultConfig cfg)) defaultConfig k =
    match cfg with
    | Some overrides => default (get d k) (overrides !! k)
    | None => get d k
    end.
Proof.
  intros Hd. unfold read, get. destruct cfg as [overrides |]; simpl.
  - rewrite lookup_alter_eq, Hd. simpl. rewrite lookup_union.
    destruct (overrides !! k), (d !! k); reflexivity.
  - now rewrite Hd.
Qed.

Lemma assign_other σ cfg (l : loc) :
  l <> defaultConfig ->
  fst (Object_assign σ defaultConfig cfg) !! l = σ !! l.
Proof.
  intros N. destruct cfg; simpl; [| reflexivity].
  now rewrite lookup_alter_ne.
Qed.

(** X5.  The merge of the constructor, property by property: the client
    reads an override where the caller gave one and the value that
    [defaultConfig] held before everywhere else; objects other than
    [defaultConfig] are not touched, and without overrides the store is
    unchanged. *)
Theorem constructor_merge
  (env : gmap string string) (σ σ' : store) (d : object)
  (tokenV2 fileToken : option string) (cfg : option object)
  (this : NotionExporter) :
  σ !! defaultConfig = Some d ->
  constructor env σ tokenV2 fileToken cfg = inr (σ', this) ->
  (forall k, read σ' (config this) k =
     match cfg with
     | Some overrides => default (get d k) (overrides !! k)
     | None => get d k
     end)
  /\ (forall l, l <> defaultConfig -> σ' !! l = σ !! l)
  /\ (cfg = None -> σ' = σ).
Proof.
  intros Hd H. apply constructor_inv in H as [-> ->].
  split; [| split].
  - intros k. now apply read_assign.
  - intros l. apply assign_other.
  - now intros ->.
Qed.

Lemma constructor_merge_witness :
  exists σ' this,
    constructor ∅ Sample.σ0 (Some "a") (Some "b")
      (Some {[ "recursive" := VBool true; "locale" := VString "en" ]})
      = inr (σ', this)
    /\ read σ' (config this) "recursive" = VBool true
    /\ read σ' (config this) "pollInterval" = VNumber 2000
    /\ read σ' (config this) "locale" = VString "en".
Proof.
  destruct (constructor ∅ Sample.σ0 (Some "a") (Some "b")
      (Some {[ "recursive" := VBool true; "locale" := VString "en" ]}))
    as [e | [σ' this]] eqn:E; [vm_compute in E; discriminate E|].
  exists σ', this. split; [reflexivity|].
  destruct (constructor_merge ∅ Sample.σ0 σ' Sample.defaults _ _ _ this
              eq_refl E) as (R & _ & _).
  rewrite !R. repeat split.
Defined.

(** X6.  Overrides pile up in [defaultConfig]: after a client built with
    [first] and a client built with [second], both clients read, for every
    property, the value of [second] if it has one, else the value of
    [first] if it has one, else the original default. *)
Theorem constructor_overrides_accumulate
  (env : gmap string string) (σ σ1 σ2 : store) (d first second : object)
  (tokA fileA tokB fileB : option string) (a b : NotionExporter) (k : string) :
  σ !! defaultConfig = Some d ->
  constructor env σ tokA fileA (Some first) = inr (σ1, a) ->
  constructor env σ1 tokB fileB (Some second) = inr (σ2, b) ->
  read σ2 (config a) k = default (default (get d k) (first !! k)) (second !! k)
  /\ read σ2 (config b) k = read σ2 (config a) k.
Proof.
  intros Hd Ha Hb.
  apply constructor_inv in Ha as [Ca E1]. apply constructor_inv in Hb as [Cb E2].
  assert (H1 : σ1 !! defaultConfig = Some (first ∪ d)).
  { subst σ1. simpl. now rewrite lookup_alter_eq, Hd. }
  rewrite Ca, Cb. split; [| reflexivity].
  subst σ2. rewrite (read_assign σ1 (first ∪ d) (Some second) k H1).
  f_equal. unfold get. rewrite lookup_union.
  destruct (first !! k), (d !! k); reflexivity.
Qed.

Lemma constructor_overrides_accumulate_witness :
  exists σ1 σ2 a b,
    constructor ∅ Sample.σ0 (Some "a") (Some "b")
      (Some {[ "recursive" := VBool true ]}) = inr (σ1, a)
    /\ constructor ∅ σ1 (Some "a") (Some "b")
      (Some {[ "pollInterval" := VNumber 100 ]}) = inr (σ2, b)
    /\ read σ2 (config a) "pollInterval" = VNumber 100
    /\ read σ2 (config b) "recursive" = VBool true.
Proof.
  destruct (constructor ∅ Sample.σ0 (Some "a") (Some "b")
              (Some {[ "recursive" := VBool true ]})) as [e | [σ1 a]] eqn:Ea;
    [vm_compute in Ea; discriminate Ea|].
  destruct (constructor ∅ σ1 (Some "a") (Some "b")
              (Some {[ "pollInterval" := VNumber 100 ]})) as [e | [σ2 b]] eqn:Eb.
  { unfold constructor in Eb. vm_compute argOrEnv in Eb.
    destruct (Object_assign σ1 defaultConfig _). discriminate Eb. }
  exists σ1, σ2, a, b. split; [reflexivity|]. split; [exact Eb|].
  pose proof (fun k => constructor_overrides_accumulate ∅ Sample.σ0 σ1 σ2
    Sample.defaults _ _ _ _ _ _ a b k eq_refl Ea Eb) as R.
  split.
  - now rewrite (proj1 (R "pollInterval")).
  - destruct (R "recursive") as [Ra Rb]. now rewrite Rb, Ra.
Defined.

(** X7.  For a client built by the constructor the fallback in
    [this.config.pollInterval || defaultConfig.pollInterval] supplies
    nothing: both operands read the same object, so the timer is armed with
    the configured value even when that is 0 or not set at all. *)
Theorem pollInterval_fallback_is_same_object
  (env : gmap string string) (σ σ' : store)
  (tokenV2 fileToken : option string) (cfg : option object)
  (this : NotionExporter) (later : store) :
  constructor env σ tokenV2 fileToken cfg = inr (σ', this) ->
  pollInterval later this = read later (config this) "pollInterval"
  /\ (forall remote taskId,
        hd_error (snd (pollTask later this remote taskId))
        = Some (SetTimeout (read later (config this) "pollInterval"))).
Proof.
  intros H. apply constructor_inv in H as [C _].
  assert (E : pollInterval later this = read later (config this) "pollInterval").
  { unfold pollInterval, or. rewrite C. now destruct (truthy _). }
  split; [exact E|]. intros remote taskId. unfold pollTask. rewrite E.
  now destruct (poll _ taskId (getTasks remote)).
Qed.

Lemma pollInterval_fallback_is_same_object_witness :
  exists σ' this,
    constructor ∅ Sample.σ0 (Some "a") (Some "b")
      (Some {[ "pollInterval" := VNumber 0 ]}) = inr (σ', this)
    /\ pollInterval σ' this = VNumber 0.
Proof.
  destruct (constructor ∅ Sample.σ0 (Some "a") (Some "b")
              (Some {[ "pollInterval" := VNumber 0 ]})) as [e | [σ' this]] eqn:E;
    [vm_compute in E; discriminate E|].
  exists σ', this. split; [reflexivity|].
  rewrite (proj1 (pollInterval_fallback_is_same_object _ _ _ _ _ _ this σ' E)).
  destruct (constructor_inv _ _ _ _ _ _ _ E) as [-> ->].
  now rewrite (read_assign _ Sample.defaults).
Defined.

(** ** The body of the submission, continued *)

(** X8.  The posted body depends on the configuration only through the
    truth value of [recursive] and through the options other than
    [recursive] and [pollInterval]: two configurations that agree on these
    give the same body.  Setting or changing [pollInterval] therefore never
    changes what is submitted. *)
Theorem enqueueBody_depends_on
  (cfg cfg' : object) (blockId : string) :
  truthy (get cfg "recursive") = truthy (get cfg' "recursive") ->
  (forall k, k <> "recursive" -> k <> "pollInterval" -> cfg !! k = cfg' !! k) ->
  enqueueBody cfg blockId = enqueueBody cfg' blockId.
Proof.
  intros Hr Hk.
  assert (E : exportOptions (request (enqueueBody cfg blockId))
              = exportOptions (request (enqueueBody cfg' blockId))).
  { apply map_eq. intros k. rewrite !exportOptions_lookup.
    destruct (decide (k = "recursive" \/ k = "pollInterval")) as [| N];
      [reflexivity|].
    rewrite (Hk k) by tauto. reflexivity. }
  unfold enqueueBody in *. simpl in E. rewrite Hr, E. reflexivity.
Qed.

Lemma enqueueBody_depends_on_witness :
  enqueueBody (<[ "pollInterval" := VNumber 50 ]> Sample.defaults) Sample.pageId
  = enqueueBody Sample.defaults Sample.pageId.
Proof.
  apply enqueueBody_depends_on.
  - reflexivity.
  - intros k _ N. now rewrite lookup_insert_ne.
Defined.

(** ** The pipeline *)

Lemma getTaskId_valid `{BlockId} σ this remote idOrUrl blockId :
  resolve idOrUrl = Some blockId -> blockId <> "" ->
  getTaskId σ this remote idOrUrl =
    (match enqueueTask remote (enqueueBody (default ∅ (σ !! config this)) blockId) with
     | NetOk taskId => Resolved taskId
     | NetError e => Rejected (TransportError e)
     end,
     [Post "enqueueTask"
        (TaskBody (enqueueBody (default ∅ (σ !! config this)) blockId))]).
Proof.
  intros Hid Hne. unfold getTaskId. unfold resolve in Hid. rewrite Hid.
  apply nonEmpty_true in Hne. rewrite Hne.
  now destruct (enqueueTask remote _).
Qed.

Lemma pollTask_success σ this remote taskId pre later results task url :
  getTasks remote = pre ++ NetOk results :: later ->
  forallb (retries taskId) pre = true ->
  List.find (fun t => String.eqb (id t) taskId) results = Some task ->
  state task = "success" -> exportURL (status task) = Some url -> url <> "" ->
  pollTask σ this remote taskId =
    (Resolved url,
     SetTimeout (pollInterval σ this)
       :: retryTrace (pollInterval σ this) taskId pre
       ++ [Post "getTasks" (TaskIdsBody [taskId])]).
Proof.
  intros Hg Hpre Hfind Hs Hu Hne.
  rewrite (pollTask_skip_retries _ _ _ _ _ _ Hg Hpre).
  cbn [poll getTask]. rewrite Hfind, (inspect_resolve taskId task url Hs Hu Hne).
  reflexivity.
Qed.

(** X9.  A submission that the transport fails rejects every operation
    built on it with that error, after the one request: no timer is armed,
    no status is queried and nothing is downloaded. *)
Theorem submission_error_stops_pipeline
  (B : BlockId) (σ : store) (this : NotionExporter) (remote : Remote)
  (idOrUrl blockId e : string) (predicate : IZipEntry -> bool) :
  resolve idOrUrl = Some blockId -> blockId <> "" ->
  enqueueTask remote (enqueueBody (default ∅ (σ !! config this)) blockId)
    = NetError e ->
  let sent := [Post "enqueueTask"
                 (TaskBody (enqueueBody (default ∅ (σ !! config this)) blockId))] in
  getTaskId σ this remote idOrUrl = (Rejected (TransportError e), sent)
  /\ getZipUrl σ this remote idOrUrl = (Rejected (TransportError e), sent)
  /\ getZip σ this remote idOrUrl = (Rejected (TransportError e), sent)
  /\ getFileString σ this remote idOrUrl predicate
     = (Rejected (TransportError e), sent).
Proof.
  intros Hid Hne Herr sent.
  pose proof (getTaskId_valid σ this remote idOrUrl blockId Hid Hne) as T.
  rewrite Herr in T. fold sent in T.
  assert (U : getZipUrl σ this remote idOrUrl = (Rejected (TransportError e), sent))
    by (unfold getZipUrl; now rewrite T).
  assert (Z : getZip σ this remote idOrUrl = (Rejected (TransportError e), sent))
    by (unfold getZip; now rewrite U).
  repeat split; try assumption.
  unfold getFileString. now rewrite Z.
Qed.

Lemma submission_error_stops_pipeline_witness :
  fst (@getZip specBlockId Sample.σ0 Sample.exporter
         {| enqueueTask := fun _ => NetError "401";
            getTasks := [Sample.finished];
            download := fun _ => NetOk [] |} Sample.pageId)
  = Rejected (TransportError "401").
Proof.
  destruct (submission_error_stops_pipeline specBlockId Sample.σ0 Sample.exporter
    {| enqueueTask := fun _ => NetError "401";
       getTasks := [Sample.finished];
       download := fun _ => NetOk [] |}
    Sample.pageId Sample.pageId "401" (fun _ => true)) as (_ & _ & Z & _).
  - vm_compute. reflexivity.
  - discriminate.
  - reflexivity.
  - now rewrite Z.
Defined.

(** X10.  The order of a successful export.  For a valid identifier, an
    accepted submission and a task that reaches [success] with an export
    URL: one submission, then the poll loop on the task identifier the
    service returned, then one download of exactly the reported URL.  What
    the download answers decides [getZip] and the archive accessors; a
    failed download rejects them with its error. *)
Theorem export_pipeline_order
  (B : BlockId) (σ : store) (this : NotionExporter) (remote : Remote)
  (idOrUrl blockId taskId url : string)
  (pre later : list (Response (list Task))) (results : list Task) (task : Task)
  (predicate : IZipEntry -> bool) :
  resolve idOrUrl = Some blockId -> blockId <> "" ->
  enqueueTask remote (enqueueBody (default ∅ (σ !! config this)) blockId)
    = NetOk taskId ->
  getTasks remote = pre ++ NetOk results :: later ->
  forallb (retries taskId) pre = true ->
  List.find (fun t => String.eqb (id t) taskId) results = Some task ->
  state task = "success" -> exportURL (status task) = Some url -> url <> "" ->
  let upToUrl :=
    Post "enqueueTask"
      (TaskBody (enqueueBody (default ∅ (σ !! config this)) blockId))
    :: SetTimeout (pollInterval σ this)
    :: retryTrace (pollInterval σ this) taskId pre
    ++ [Post "getTasks" (TaskIdsBody [taskId])] in
  getZipUrl σ this remote idOrUrl = (Resolved url, upToUrl)
  /\ getZip σ this remote idOrUrl =
       (match download remote url with
        | NetOk zip => Resolved zip
        | NetError e => Rejected (TransportError e)
        end, upToUrl ++ [Get url])
  /\ getFileString σ this remote idOrUrl predicate =
       (match download remote url with
        | NetOk zip => fileString zip predicate
        | NetError e => Rejected (TransportError e)
        end, upToUrl ++ [Get url]).
Proof.
  intros Hid Hne Hok Hg Hpre Hfind Hs Hu Hurl upToUrl.
  pose proof (getTaskId_valid σ this remote idOrUrl blockId Hid Hne) as T.
  rewrite Hok in T.
  pose proof (pollTask_success σ this remote taskId pre later results task url
                Hg Hpre Hfind Hs Hu Hurl) as P.
  assert (U : getZipUrl σ this remote idOrUrl = (Resolved url, upToUrl)).
  { unfold getZipUrl. rewrite T. cbn [andThen]. rewrite P. reflexivity. }
  assert (Z : getZip σ this remote idOrUrl =
       (match download remote url with
        | NetOk zip => Resolved zip
        | NetError e => Rejected (TransportError e)
        end, upToUrl ++ [Get url])).
  { unfold getZip. rewrite U. cbn [andThen]. unfold downloadZip.
    now destruct (download remote url). }
  split; [exact U|]. split; [exact Z|].
  unfold getFileString. rewrite Z.
  destruct (download remote url); cbn [andThen]; [reflexivity|].
  f_equal. apply app_nil_r.
Qed.

Lemma export_pipeline_order_witness :
  @getZip specBlockId Sample.σ0 Sample.exporter
    (Sample.service [NetOk [Sample.task "not_started" None]; Sample.finished]
       [Sample.tableAll]) Sample.pageId
  = (Resolved [Sample.tableAll],
     [Post "enqueueTask" (TaskBody (enqueueBody Sample.defaults Sample.pageId));
      SetTimeout (VNumber 2000); Post "getTasks" (TaskIdsBody ["t1"]);
      SetTimeout (VNumber 2000); Post "getTasks" (TaskIdsBody ["t1"]);
      Get "https://files.example/export.zip"]).
Proof.
  refine (proj1 (proj2 (export_pipeline_order specBlockId Sample.σ0
    Sample.exporter _ Sample.pageId Sample.pageId "t1"
    "https://files.example/export.zip"
    [NetOk [Sample.task "not_started" None]] []
    [Sample.task "success" (Some "https://files.example/export.zip")]
    (Sample.task "success" (Some "https://files.example/export.zip"))
    (fun _ => true) _ _ _ _ _ _ _ _ _))); try reflexivity; discriminate.
Defined.

(** ** The poll loop, in general *)

Lemma retryTrace_requests interval taskId pre :
  length (List.filter isRequest (retryTrace interval taskId pre)) = length pre
  /\ length (List.filter isTimer (retryTrace interval taskId pre)) = length pre.
Proof.
  induction pre as [| r pre [IHq IHt]]; simpl; [auto|]. split; congruence.
Qed.

(** X11.  The loop has no bound of its own.  As long as every reply shows
    the task [in_progress] or [not_started], the promise stays pending with
    the next timer armed: after [n] such replies the loop has made [n]
    queries and armed [n + 1] timers, and has logged nothing. *)
Theorem pollTask_keeps_polling
  (σ : store) (this : NotionExporter) (remote : Remote) (taskId : string) :
  forallb (retries taskId) (getTasks remote) = true ->
  pollTask σ this remote taskId =
    (Polling,
     SetTimeout (pollInterval σ this)
       :: retryTrace (pollInterval σ this) taskId (getTasks remote))
  /\ length (List.filter isRequest (snd (pollTask σ this remote taskId)))
     = length (getTasks remote)
  /\ length (List.filter isTimer (snd (pollTask σ this remote taskId)))
     = S (length (getTasks remote)).
Proof.
  intros Hall.
  assert (E : pollTask σ this remote taskId =
    (Polling,
     SetTimeout (pollInterval σ this)
       :: retryTrace (pollInterval σ this) taskId (getTasks remote))).
  { rewrite (pollTask_skip_retries σ this remote taskId (getTasks remote) []);
      [| now rewrite app_nil_r | exact Hall].
    simpl. now rewrite app_nil_r. }
  rewrite E. split; [reflexivity|].
  destruct (retryTrace_requests (pollInterval σ this) taskId (getTasks remote))
    as [Hq Ht].
  simpl. rewrite Hq, Ht. auto.
Qed.

Lemma pollTask_keeps_polling_witness :
  fst (pollTask Sample.σ0 Sample.exporter
         (Sample.service
            (repeat (NetOk [Sample.task "in_progress" None]) 40) []) "t1")
  = Polling.
Proof.
  rewrite (proj1 (pollTask_keeps_polling Sample.σ0 Sample.exporter
    (Sample.service (repeat (NetOk [Sample.task "in_progress" None]) 40) [])
    "t1" eq_refl)).
  reflexivity.
Defined.

Lemma poll_first_decides interval taskId r later :
  retries taskId r = false ->
  poll interval taskId (r :: later) = poll interval taskId [r]
  /\ fst (poll interval taskId [r]) <> Polling.
Proof.
  intros Hr. cbn [poll]. destruct r as [e | results]; cbn [getTask].
  - split; [reflexivity | discriminate].
  - unfold retries in Hr.
    destruct (inspect taskId _); try discriminate Hr;
      (split; [reflexivity | discriminate]).
Qed.

(** X12.  The first reply that does not show the task [in_progress] or
    [not_started] ends the loop: whatever the service would have answered
    afterwards is never asked for, and the promise is no longer waiting on a
    timer. *)
Theorem pollTask_stops_at_first_other_reply
  (σ : store) (this : NotionExporter) (remote : Remote) (taskId : string)
  (pre later : list (Response (list Task))) (r : Response (list Task)) :
  getTasks remote = pre ++ r :: later ->
  forallb (retries taskId) pre = true ->
  retries taskId r = false ->
  pollTask σ this remote taskId
    = pollTask σ this (withReplies remote (pre ++ [r])) taskId
  /\ fst (pollTask σ this remote taskId) <> Polling
  /\ length (List.filter isRequest (snd (pollTask σ this remote taskId)))
     = S (length pre).
Proof.
  intros Hg Hpre Hr.
  destruct (poll_first_decides (pollInterval σ this) taskId r later Hr) as [E N].
  rewrite (pollTask_skip_retries σ this remote taskId pre (r :: later) Hg Hpre).
  rewrite (pollTask_skip_retries σ this (withReplies remote (pre ++ [r]))
             taskId pre [r] eq_refl Hpre).
  rewrite E. split; [reflexivity|]. split; [exact N|].
  cbn [snd]. cbn [List.filter isRequest]. rewrite List.filter_app, length_app.
  rewrite (proj1 (retryTrace_requests _ _ _)).
  assert (Q : length (List.filter isRequest
                (snd (poll (pollInterval σ this) taskId [r]))) = 1).
  { cbn [poll]. destruct r as [e | results]; cbn [getTask]; [reflexivity|].
    unfold retries in Hr.
    destruct (inspect taskId _); try discriminate Hr; reflexivity. }
  cbn [length]. rewrite Q. lia.
Qed.

Lemma pollTask_stops_at_first_other_reply_witness :
  pollTask Sample.σ0 Sample.exporter
    (Sample.service
       [NetOk [Sample.task "not_started" None]; NetOk [Sample.task "aborted" None];
        Sample.finished] []) "t1"
  = pollTask Sample.σ0 Sample.exporter
      (Sample.service
         [NetOk [Sample.task "not_started" None]; NetOk [Sample.task "aborted" None]]
         []) "t1".
Proof.
  refine (proj1 (pollTask_stops_at_first_other_reply Sample.σ0 Sample.exporter
    (Sample.service
       [NetOk [Sample.task "not_started" None]; NetOk [Sample.task "aborted" None];
        Sample.finished] []) "t1"
    [NetOk [Sample.task "not_started" None]] [Sample.finished]
    (NetOk [Sample.task "aborted" None]) eq_refl eq_refl eq_refl)).
Defined.

Lemma inspect_resolve_inv taskId found url :
  inspect taskId found = Resolve url ->
  exists task, found = Some task /\ state task = "success"
    /\ exportURL (status task) = Some url /\ url <> "".
Proof.
  destruct found as [task |]; [| discriminate]. unfold inspect.
  destruct (String.eqb (state task) "success") eqn:S; simpl.
  - destruct (exportURL (status task)) as [u |] eqn:U; simpl.
    + destruct (nonEmpty u) eqn:N.
      * intros [= <-]. exists task. apply String.eqb_eq in S.
        apply nonEmpty_true in N. auto.
      * destruct (_ || _); discriminate.
    + destruct (_ || _); discriminate.
  - destruct (_ || _); discriminate.
Qed.

Lemma inspect_fail_inv taskId found task why :
  inspect taskId found = Fail task why ->
  found = Some task /\ why = "Export task failed: " +:+ taskId +:+ "."
  /\ state task <> "in_progress" /\ state task <> "not_started".
Proof.
  destruct found as [task' |]; [| discriminate]. unfold inspect.
  destruct (_ && _); [discriminate|].
  destruct (String.eqb (state task') "in_progress") eqn:E1; [discriminate|].
  destruct (String.eqb (state task') "not_started") eqn:E2; [discriminate|].
  simpl. intros [= <- <-].
  apply String.eqb_neq in E1, E2. auto.
Qed.

Lemma inspect_throw_inv taskId found r :
  inspect taskId found = Throw r ->
  found = None /\ exists what, r = TypeError what.
Proof.
  destruct found as [task |]; unfold inspect.
  - destruct (_ && _); [discriminate|]. destruct (_ || _); discriminate.
  - intros [= <-]. eauto.
Qed.

Lemma poll_trace_shape interval taskId replies :
  let tr := snd (poll interval taskId replies) in
  Forall (fun e => e = SetTimeout interval
                   \/ e = Post "getTasks" (TaskIdsBody [taskId])
                   \/ exists task, e = ConsoleError taskId task) tr
  /\ length (List.filter isTimer tr)
     + (match fst (poll interval taskId replies) with Polling => 0 | _ => 1 end)
     = length (List.filter isRequest tr)
  /\ length (List.filter isRequest tr) <= length replies.
Proof.
  induction replies as [| r later IH]; cbn zeta in *.
  - simpl. auto.
  - cbn [poll]. destruct r as [e | results]; cbn [getTask].
    + simpl. split; [| lia]. apply List.Forall_cons; [auto | constructor].
    + destruct (inspect taskId _) as [url | | task why | r].
      * simpl. split; [| lia]. apply List.Forall_cons; [auto | constructor].
      * destruct (poll interval taskId later) as [o tr].
        destruct IH as (F & C & L). simpl in *. split; [| lia].
        apply List.Forall_cons; [auto|]. apply List.Forall_cons; [auto | exact F].
      * simpl. split; [| lia].
        apply List.Forall_cons; [auto|].
        apply List.Forall_cons; [eauto | constructor].
      * simpl. split; [| lia]. apply List.Forall_cons; [auto | constructor].
Qed.

(** X13.  What the loop does and what it never does.  Every effect of
    [pollTask] is a timer armed with the poll interval, a status query for
    the one polled task identifier, or the error log of that identifier;
    each query follows a timer of its own, with one more timer armed while
    the loop is still polling; and the loop makes no more queries than the
    service gave replies. *)
Theorem pollTask_trace_shape
  (σ : store) (this : NotionExporter) (remote : Remote) (taskId : string) :
  let tr := snd (pollTask σ this remote taskId) in
  Forall (fun e => e = SetTimeout (pollInterval σ this)
                   \/ e = Post "getTasks" (TaskIdsBody [taskId])
                   \/ exists task, e = ConsoleError taskId task) tr
  /\ length (List.filter isTimer tr)
     = length (List.filter isRequest tr)
       + (match fst (pollTask σ this remote taskId) with Polling => 1 | _ => 0 end)
  /\ length (List.filter isRequest tr) <= length (getTasks remote).
Proof.
  cbn zeta. unfold pollTask.
  pose proof (poll_trace_shape (pollInterval σ this) taskId (getTasks remote))
    as (F & C & L). cbn zeta in *.
  destruct (poll (pollInterval σ this) taskId (getTasks remote)) as [o tr].
  simpl in *. repeat split; [auto | | exact L].
  destruct o; lia.
Qed.

Lemma poll_outcome_sound interval taskId replies :
  (forall url, fst (poll interval taskId replies) = Resolved url ->
     url <> ""
     /\ exists results task,
          In (NetOk results) replies /\ In task results /\ id task = taskId
          /\ state task = "success" /\ exportURL (status task) = Some url)
  /\ (forall r, fst (poll interval taskId replies) = Rejected r ->
      r = Message ("Export task failed: " +:+ taskId +:+ ".")
      /\ exists results task,
           In (NetOk results) replies /\ In task results /\ id task = taskId
           /\ state task <> "in_progress" /\ state task <> "not_started"
           /\ In (ConsoleError taskId task) (snd (poll interval taskId replies)))
  /\ (forall r, fst (poll interval taskId replies) = Abandoned r ->
      (exists e, r = TransportError e /\ In (NetError e) replies)
      \/ (exists what results,
            r = TypeError what /\ In (NetOk results) replies
            /\ forall t, In t results -> id t <> taskId)).
Proof.
  induction replies as [| reply later (IHres & IHrej & IHab)].
  - simpl. repeat split; discriminate.
  - cbn [poll]. destruct reply as [e | results]; cbn [getTask].
    + simpl. split; [discriminate|]. split; [discriminate|].
      intros r [= <-]. left. eauto.
    + destruct (inspect taskId _) as [url | | task why | r] eqn:I.
      * apply inspect_resolve_inv in I as (task & F & S & U & N).
        apply find_some in F as [Hin Hid]. apply String.eqb_eq in Hid.
        simpl. split; [| split; discriminate].
        intros url' [= <-]. split; [exact N|]. exists results, task. auto 7.
      * destruct (poll interval taskId later) as [o tr]. simpl in *.
        split; [| split].
        -- intros url H. destruct (IHres url H) as (N & rs & t & Hin & Rest).
           split; [exact N|]. exists rs, t. auto.
        -- intros r H.
           destruct (IHrej r H) as (E & rs & t & Hin & Ht & Hid & N1 & N2 & Hlog).
           split; [exact E|]. exists rs, t. auto 10.
        -- intros r H. destruct (IHab r H) as [(e & E & Hin) | (w & rs & E & Hin & Hno)].
           ++ left. eauto.
           ++ right. exists w, rs. auto.
      * apply inspect_fail_inv in I as (F & -> & N1 & N2).
        apply find_some in F as [Hin Hid]. apply String.eqb_eq in Hid.
        simpl. split; [discriminate|]. split; [| discriminate].
        intros r [= <-]. split; [reflexivity|]. exists results, task. auto 10.
      * apply inspect_throw_inv in I as (F & what & ->).
        simpl. split; [discriminate|]. split; [discriminate|].
        intros r [= <-]. right. exists what, results.
        split; [reflexivity|]. split; [auto|].
        intros t Hin Hid. apply (find_none _ _ F) in Hin.
        apply String.eqb_neq in Hin. contradiction.
Qed.

(** X14.  Where each outcome of [pollTask] comes from.  It resolves only
    with the non-empty export URL of a [success] record of the polled task
    that the service reported.  It rejects only with the export-task-failed
    message, after logging a reported record of that task whose state
    allows no retry; it never rejects with a transport error.  It is left
    unsettled by a throw only after a failed status query or a reply
    without a record of the task. *)
Theorem pollTask_outcome_sound
  (σ : store) (this : NotionExporter) (remote : Remote) (taskId : string) :
  (forall url, fst (pollTask σ this remote taskId) = Resolved url ->
     url <> ""
     /\ exists results task,
          In (NetOk results) (getTasks remote) /\ In task results
          /\ id task = taskId /\ state task = "success"
          /\ exportURL (status task) = Some url)
  /\ (forall r, fst (pollTask σ this remote taskId) = Rejected r ->
      r = Message ("Export task failed: " +:+ taskId +:+ ".")
      /\ exists results task,
           In (NetOk results) (getTasks remote) /\ In task results
           /\ id task = taskId
           /\ state task <> "in_progress" /\ state task <> "not_started"
           /\ In (ConsoleError taskId task) (snd (pollTask σ this remote taskId)))
  /\ (forall r, fst (pollTask σ this remote taskId) = Abandoned r ->
      (exists e, r = TransportError e /\ In (NetError e) (getTasks remote))
      \/ (exists what results,
            r = TypeError what /\ In (NetOk results) (getTasks remote)
            /\ forall t, In t results -> id t <> taskId)).
Proof.
  unfold pollTask.
  pose proof (poll_outcome_sound (pollInterval σ this) taskId (getTasks remote))
    as (R & J & A).
  destruct (poll (pollInterval σ this) taskId (getTasks remote)) as [o tr].
  simpl in *. split; [exact R|]. split; [| exact A].
  intros r H. destruct (J r H) as (E & rs & t & H1 & H2 & H3 & H4 & H5 & H6).
  split; [exact E|]. exists rs, t. auto 10.
Qed.

Lemma pollTask_outcome_sound_witness :
  exists results task,
    In (NetOk results) [NetOk [Sample.task "in_progress" None]; Sample.finished]
    /\ In task results /\ state task = "success"
    /\ exportURL (status task) = Some "https://files.example/export.zip".
Proof.
  destruct (proj1 (pollTask_outcome_sound Sample.σ0 Sample.exporter
    (Sample.service [NetOk [Sample.task "in_progress" None]; Sample.finished] [])
    "t1") "https://files.example/export.zip" eq_refl)
    as (_ & results & task & H1 & H2 & _ & H3 & H4).
  exists results, task. auto.
Defined.

(** ** The archive accessors, in general *)

Lemma find_first_inv {A} (p : A -> bool) (l : list A) (x : A) :
  List.find p l = Some x ->
  exists pre post, l = pre ++ x :: post
    /\ forallb (fun y => negb (p y)) pre = true /\ p x = true.
Proof.
  induction l as [| y l IH]; simpl; [discriminate|].
  destruct (p y) eqn:Py.
  - intros [= <-]. exists [], l. auto.
  - intros F. destruct (IH F) as (pre & post & -> & Hpre & Px).
    exists (y :: pre), post. simpl. rewrite Py. auto.
Qed.

(** X15.  [getFileString] on a downloaded archive resolves exactly when the
    first entry in archive order that satisfies the predicate has text left
    after trimming, and then with that trimmed text; in every other case it
    rejects with "Could not find file in ZIP.".  Entries after the first
    match are never looked at, even when the first match is blank. *)
Theorem fileString_resolves_iff
  (zip : AdmZip) (predicate : IZipEntry -> bool) (s : string) :
  (fileString zip predicate = Resolved s
   <-> exists pre e post,
         zip = pre ++ e :: post
         /\ forallb (fun x => negb (predicate x)) pre = true
         /\ predicate e = true /\ s = trim (text e) /\ s <> "")
  /\ ((forall s', fileString zip predicate <> Resolved s') ->
      fileString zip predicate = Rejected (Message "Could not find file in ZIP.")).
Proof.
  split.
  - split.
    + unfold fileString. destruct (List.find predicate zip) as [e |] eqn:F;
        cbn [option_map]; [| discriminate].
      destruct (nonEmpty (trim (text e))) eqn:N; [| discriminate].
      intros [= <-]. apply find_first_inv in F as (pre & post & -> & Hpre & Pe).
      apply nonEmpty_true in N. exists pre, e, post. auto.
    + intros (pre & e & post & -> & Hpre & Pe & -> & N).
      apply fileString_found; [| exact N]. now apply find_first.
  - unfold fileString. destruct (List.find predicate zip) as [e |];
      cbn [option_map]; [| auto].
    destruct (nonEmpty (trim (text e))); [| auto].
    intros No. now specialize (No (trim (text e))).
Qed.

Lemma fileString_resolves_iff_witness :
  fileString [ {| name := "a.md"; text := " " |}; {| name := "b.md"; text := "B" |} ]
    (fun e => endsWith (name e) ".md") <> Resolved "B".
Proof.
  intros H.
  apply (proj1 (fileString_resolves_iff _ _ "B")) in H
    as (pre & e & post & E & Hpre & Pe & Hs & _).
  destruct pre as [| x pre].
  - injection E as <- _. vm_compute in Hs. discriminate Hs.
  - injection E as <- _. vm_compute in Hpre. discriminate Hpre.
Defined.

(** X16.  The text an archive accessor resolves with is never empty and has
    no white space at either end: trimming it again changes nothing, and
    its first and last characters are no white space. *)
Theorem fileString_text_is_trimmed
  (zip : AdmZip) (predicate : IZipEntry -> bool) (s : string) :
  fileString zip predicate = Resolved s ->
  s <> "" /\ trimmed s
  /\ (forall c u, s = String c u -> isWhiteSpace c = false)
  /\ (forall u c, s = u +:+ String c "" -> isWhiteSpace c = false).
Proof.
  unfold fileString. destruct (List.find predicate zip) as [e |];
    cbn [option_map]; [| discriminate].
  destruct (nonEmpty (trim (text e))) eqn:N; [| discriminate].
  intros [= <-]. apply nonEmpty_true in N.
  split; [exact N|]. split; [apply JSFacts.trim_idem|]. split.
  - intros c u. apply JSFacts.trim_head.
  - intros u c. apply JSFacts.trim_last.
Qed.

Lemma fileString_text_is_trimmed_witness :
  trimmed "# Title" /\ "# Title" <> "".
Proof.
  destruct (fileString_text_is_trimmed
    [ {| name := "Page.md"; text := "
  # Title  
" |} ] (fun e => endsWith (name e) ".md") "# Title") as (N & T & _).
  - vm_compute. reflexivity.
  - split; assumption.
Defined.

Lemma all_csv_is_csv (s : string) :
  endsWith s "_all.csv" = true -> endsWith s ".csv" = true.
Proof.
  rewrite !JSFacts.endsWith_iff. intros [pre ->].
  exists (pre +:+ "_all"). now rewrite JSFacts.append_assoc.
Qed.

(** X17.  The two predicates of [getCsvString] are nested: an entry chosen
    for the full table also counts as a current-view file, and leaving the
    flag out means the full table.  So with the flag set the accessor finds
    an entry whenever the full-table accessor does, and the entry it takes
    is that one or stands ahead of it in the archive. *)
Theorem csvPredicate_nested (zip : AdmZip) (e : IZipEntry) :
  (forall x, csvPredicate (Some false) x = true -> csvPredicate (Some true) x = true)
  /\ (forall x, csvPredicate None x = csvPredicate (Some false) x)
  /\ (List.find (csvPredicate (Some false)) zip = Some e ->
      exists pre first post,
        zip = pre ++ first :: post
        /\ List.find (csvPredicate (Some true)) zip = Some first
        /\ (first = e \/ In e post)).
Proof.
  assert (N : forall x, csvPredicate (Some false) x = true ->
                        csvPredicate (Some true) x = true).
  { intros x. unfold csvPredicate. simpl. apply all_csv_is_csv. }
  split; [exact N|]. split; [reflexivity|].
  intros F. apply find_some in F as [Hin Pe]. apply N in Pe.
  destruct (List.find (csvPredicate (Some true)) zip) as [first |] eqn:F'.
  - destruct (find_first_inv _ _ _ F') as (pre & post & E & Hpre & Pf).
    exists pre, first, post. split; [exact E|]. split; [reflexivity|].
    rewrite E in Hin. apply in_app_or in Hin as [Hin | [-> | Hin]]; auto.
    rewrite forallb_forall in Hpre. apply Hpre in Hin.
    rewrite Pe in Hin. discriminate Hin.
  - apply (find_none _ _ F') in Hin. congruence.
Qed.

Lemma csvPredicate_nested_witness :
  exists pre first post,
    [Sample.viewCurrent; Sample.tableAll] = pre ++ first :: post
    /\ List.find (csvPredicate (Some true)) [Sample.viewCurrent; Sample.tableAll]
       = Some first
    /\ (first = Sample.tableAll \/ In Sample.tableAll post).
Proof.
  exact (proj2 (proj2 (csvPredicate_nested [Sample.viewCurrent; Sample.tableAll]
                         Sample.tableAll)) eq_refl).
Defined.

(** X18.  [getMdString] resolves only with the trimmed text of an entry of
    the downloaded archive whose name ends in ".md", and adds no effect of
    its own to those of [getZip]. *)
Theorem getMdString_source
  (B : BlockId) (σ : store) (this : NotionExporter) (remote : Remote)
  (idOrUrl s : string) (zip : AdmZip) (tr tr' : list Event) :
  getZip σ this remote idOrUrl = (Resolved zip, tr) ->
  getMdString σ this remote idOrUrl = (Resolved s, tr') ->
  tr' = tr
  /\ exists e stem, In e zip /\ name e = stem +:+ ".md" /\ s = trim (text e).
Proof.
  intros Hz H. unfold getMdString in H.
  rewrite (getFileString_resolved _ _ _ _ _ _ _ Hz) in H.
  injection H as H <-. split; [reflexivity|].
  unfold fileString in H.
  destruct (List.find _ zip) as [e |] eqn:F; cbn [option_map] in H;
    [| discriminate].
  destruct (nonEmpty (trim (text e))); [| discriminate].
  injection H as <-. apply find_some in F as [Hin Hname].
  apply JSFacts.endsWith_iff in Hname as [stem Hname]. eauto.
Qed.

Lemma getMdString_source_witness :
  exists e stem,
    In e [ {| name := "Page 83715d77.md"; text := "# Title " |} ]
    /\ name e = stem +:+ ".md" /\ "# Title" = trim (text e).
Proof.
  pose (remote := Sample.service [Sample.finished]
                    [ {| name := "Page 83715d77.md"; text := "# Title " |} ]).
  refine (proj2 (getMdString_source specBlockId Sample.σ0 Sample.exporter remote
    Sample.pageId "# Title" _
    (snd (@getZip specBlockId Sample.σ0 Sample.exporter remote Sample.pageId))
    (snd (@getMdString specBlockId Sample.σ0 Sample.exporter remote Sample.pageId))
    _ _)); vm_compute; reflexivity.
Defined.

(** ** Extraction to disk *)

(** X19.  [getMdFiles] unpacks only what it downloaded: the one call of
    [extractAllTo] is made on the archive [getZip] resolved with and on
    the folder given by the caller, after every network effect; when
    [getZip] does not resolve nothing is unpacked, and the promise resolves
    only if the archive was downloaded and unpacking did not throw. *)
Theorem getMdFiles_extracts_download
  (B : BlockId) (σ : store) (this : NotionExporter) (remote : Remote)
  (extractAllTo : AdmZip -> string -> option string) (idOrUrl path : string) :
  let run := getMdFiles σ this remote extractAllTo idOrUrl path in
  (forall zip tr, getZip σ this remote idOrUrl = (Resolved zip, tr) ->
     snd run = map Client tr ++ [ExtractAllTo zip path])
  /\ (forall zip' path', In (ExtractAllTo zip' path') (snd run) ->
        path' = path /\ fst (getZip σ this remote idOrUrl) = Resolved zip')
  /\ (fst run = Resolved tt ->
        exists zip, fst (getZip σ this remote idOrUrl) = Resolved zip
                    /\ extractAllTo zip path = None)
  /\ (forall r, fst (getZip σ this remote idOrUrl) = Rejected r ->
        fst run = Rejected r).
Proof.
  cbn zeta. unfold getMdFiles.
  assert (NoExtract : forall tr zip' path',
            ~ In (ExtractAllTo zip' path') (map Client tr)).
  { intros tr zip' path' Hin. apply in_map_iff in Hin as (ev & E & _).
    discriminate E. }
  destruct (getZip σ this remote idOrUrl) as [[zip | r | | r] tr]; cbn [fst snd].
  - split; [now intros zip0 tr0 [= <- <-]|]. split; [| split].
    + intros zip' path' Hin. apply in_app_or in Hin as [Hin | [E | []]].
      * now apply NoExtract in Hin.
      * now injection E as <- <-.
    + destruct (extractAllTo zip path) eqn:X; [discriminate | eauto].
    + discriminate.
  - split; [discriminate|]. split; [| split].
    + intros zip' path' Hin. now apply NoExtract in Hin.
    + discriminate.
    + now intros r' [= <-].
  - split; [discriminate|]. split; [| split]; try discriminate.
    intros zip' path' Hin. now apply NoExtract in Hin.
  - split; [discriminate|]. split; [| split]; try discriminate.
    intros zip' path' Hin. now apply NoExtract in Hin.
Qed.

Lemma getMdFiles_extracts_download_witness :
  snd (@getMdFiles specBlockId Sample.σ0 Sample.exporter
         (Sample.service [Sample.finished] [Sample.tableAll])
         (fun _ _ => None) Sample.pageId "out")
  = map Client (snd (@getZip specBlockId Sample.σ0 Sample.exporter
         (Sample.service [Sample.finished] [Sample.tableAll]) Sample.pageId))
    ++ [ExtractAllTo [Sample.tableAll] "out"].
Proof.
  apply (proj1 (getMdFiles_extracts_download specBlockId Sample.σ0
    Sample.exporter (Sample.service [Sample.finished] [Sample.tableAll])
    (fun _ _ => None) Sample.pageId "out")).
  vm_compute. reflexivity.
Defined.

(** ** The command line *)

Lemma isFileType_iff (fileType : string) :
  isFileType fileType = true <-> fileType = "md" \/ fileType = "csv".
Proof.
  unfold isFileType, FileType. cbn [existsb].
  rewrite orb_false_r, orb_true_iff, !String.eqb_eq. reflexivity.
Qed.

Lemma action_with_client `{BlockId} env σ answer remote blockId fileType cfg
  σ' exporter :
  isFileType fileType = true ->
  constructor env σ (Some (fst (envOrAskToken env answer "NOTION_TOKEN")))
    (Some (fst (envOrAskToken env answer "NOTION_FILE_TOKEN"))) cfg
    = inr (σ', exporter) ->
  let run :=
    if String.eqb fileType "csv"
    then getCsvString σ' exporter remote blockId None
    else getMdString σ' exporter remote blockId in
  let before :=
    snd (envOrAskToken env answer "NOTION_TOKEN")
    ++ snd (envOrAskToken env answer "NOTION_FILE_TOKEN")
    ++ map Client (snd run) in
  action env σ answer remote blockId fileType cfg =
    match fst run with
    | Resolved s => (Finished, before ++ [ConsoleLog (PText s)])
    | Rejected r => (Exit 1, before ++ report r)
    | Polling | Abandoned _ => (Waiting, before)
    end.
Proof.
  intros Hft Hc run before. unfold action. rewrite Hft. cbn [negb].
  destruct (envOrAskToken env answer "NOTION_TOKEN") as [tokenV2 asked1].
  destruct (envOrAskToken env answer "NOTION_FILE_TOKEN") as [fileToken asked2].
  cbn [fst snd] in *. rewrite Hc. subst before run.
  destruct (if String.eqb fileType "csv"
            then getCsvString σ' exporter remote blockId None
            else getMdString σ' exporter remote blockId) as [o tr].
  reflexivity.
Qed.

Lemma action_without_client `{BlockId} env σ answer remote blockId fileType cfg e :
  isFileType fileType = true ->
  constructor env σ (Some (fst (envOrAskToken env answer "NOTION_TOKEN")))
    (Some (fst (envOrAskToken env answer "NOTION_FILE_TOKEN"))) cfg = inl e ->
  action env σ answer remote blockId fileType cfg =
    (Thrown e,
     snd (envOrAskToken env answer "NOTION_TOKEN")
     ++ snd (envOrAskToken env answer "NOTION_FILE_TOKEN")).
Proof.
  intros Hft Hc. unfold action. rewrite Hft. cbn [negb].
  destruct (envOrAskToken env answer "NOTION_TOKEN") as [tokenV2 asked1].
  destruct (envOrAskToken env answer "NOTION_FILE_TOKEN") as [fileToken asked2].
  cbn [fst snd] in *. now rewrite Hc.
Qed.

Lemma envOrAskToken_asked env answer tokenName :
  Forall (fun ev => ev = Question tokenName)
         (snd (envOrAskToken env answer tokenName))
  /\ (snd (envOrAskToken env answer tokenName) = []
      <-> exists v, env !! tokenName = Some v /\ v <> "").
Proof.
  unfold envOrAskToken. destruct (env !! tokenName) as [v |].
  - destruct (nonEmpty v) eqn:N; cbn [snd].
    + apply nonEmpty_true in N. split; [constructor|]. split; eauto.
    + apply nonEmpty_false in N. split; [repeat constructor|].
      split; [discriminate|]. intros (v' & [= <-] & Hv). contradiction.
  - cbn [snd]. split; [repeat constructor|].
    split; [discriminate|]. intros (v' & Hv & _). discriminate.
Qed.

(** X20.  [action] checks the file type before anything else: for a type
    other than "md" and "csv" it prints the list of allowed types and exits
    with code 1, without asking for a token and without any request. *)
Theorem action_rejects_file_type
  (B : BlockId) (env : gmap string string) (σ : store) (answer : string -> string)
  (remote : Remote) (blockId fileType : string) (cfg : option object) :
  fileType <> "md" -> fileType <> "csv" ->
  action env σ answer remote blockId fileType cfg =
    (Exit 1,
     [ConsoleLog (PText "File type (-t, --type) has to be one of: md,csv")]).
Proof.
  intros Hmd Hcsv. unfold action.
  destruct (isFileType fileType) eqn:Hft; [| reflexivity].
  apply isFileType_iff in Hft as [-> | ->]; contradiction.
Qed.

Lemma action_rejects_file_type_witness :
  @action specBlockId ∅ Sample.σ0 (fun _ => "secret")
    (Sample.service [Sample.finished] []) Sample.pageId "pdf" None
  = (Exit 1,
     [ConsoleLog (PText "File type (-t, --type) has to be one of: md,csv")]).
Proof.
  apply action_rejects_file_type; discriminate.
Defined.

(** X21.  [action] itself throws only for a missing credential.  Then
    nothing has been printed or sent, only the prompts shown, and no exit
    code is set by [action]: the [catch] handler is attached to the export
    promise alone. *)
Theorem action_throws_only_for_credentials
  (B : BlockId) (env : gmap string string) (σ : store) (answer : string -> string)
  (remote : Remote) (blockId fileType : string) (cfg : option object)
  (e : Reason) :
  fst (action env σ answer remote blockId fileType cfg) = Thrown e ->
  (e = JsError "Missing NOTION_TOKEN" \/ e = JsError "Missing NOTION_FILE_TOKEN")
  /\ Forall (fun ev => ev = Question "NOTION_TOKEN"
                       \/ ev = Question "NOTION_FILE_TOKEN")
            (snd (action env σ answer remote blockId fileType cfg)).
Proof.
  destruct (isFileType fileType) eqn:Hft.
  - destruct (constructor env σ
               (Some (fst (envOrAskToken env answer "NOTION_TOKEN")))
               (Some (fst (envOrAskToken env answer "NOTION_FILE_TOKEN"))) cfg)
      as [e' | [σ' exporter]] eqn:Hc.
    + rewrite (action_without_client _ _ _ _ _ _ _ _ Hft Hc). cbn [fst snd].
      intros [= <-]. split.
      * unfold constructor in Hc.
        destruct (argOrEnv env tokenV2Name _) as [e1 | token] eqn:E1.
        -- injection Hc as <-. left. now apply argOrEnv_missing_message in E1.
        -- destruct (argOrEnv env fileTokenName _) as [e2 | fileTok] eqn:E2.
           ++ injection Hc as <-. right. now apply argOrEnv_missing_message in E2.
           ++ destruct (Object_assign σ defaultConfig cfg). discriminate Hc.
      * apply Forall_app. split.
        -- eapply List.Forall_impl;
             [| exact (proj1 (envOrAskToken_asked env answer "NOTION_TOKEN"))].
           simpl. auto.
        -- eapply List.Forall_impl;
             [| exact (proj1 (envOrAskToken_asked env answer "NOTION_FILE_TOKEN"))].
           simpl. auto.
    + rewrite (action_with_client _ _ _ _ _ _ _ _ _ Hft Hc).
      cbn zeta.
      destruct (fst (if String.eqb fileType "csv"
                     then getCsvString σ' exporter remote blockId None
                     else getMdString σ' exporter remote blockId));
        cbn [fst]; intros D; discriminate D.
  - unfold action. rewrite Hft. cbn [negb fst]. intros D. discriminate D.
Qed.

Lemma action_throws_only_for_credentials_witness :
  Forall (fun ev => ev = Question "NOTION_TOKEN" \/ ev = Question "NOTION_FILE_TOKEN")
    (snd (@action specBlockId ∅ Sample.σ0 (fun _ => "  ")
            (Sample.service [Sample.finished] []) Sample.pageId "md" None)).
Proof.
  apply (fun H => proj2 (action_throws_only_for_credentials specBlockId ∅
    Sample.σ0 (fun _ => "  ") (Sample.service [Sample.finished] [])
    Sample.pageId "md" None (JsError "Missing NOTION_TOKEN") H)).
  vm_compute. reflexivity.
Defined.

Lemma fetchEnv_blank_token env answer tokenName :
  trim (fst (envOrAskToken env answer tokenName)) = "" ->
  fetchEnv env tokenName = inl (JsError ("Missing " +:+ tokenName)).
Proof.
  unfold envOrAskToken, fetchEnv.
  destruct (env !! tokenName) as [v |]; cbn [option_map]; [| reflexivity].
  destruct (nonEmpty v) eqn:N; cbn [fst].
  - intros ->. reflexivity.
  - apply nonEmpty_false in N. subst v. intros _. reflexivity.
Qed.

(** X22.  A first token that is blank once trimmed makes [action] throw
    "Missing NOTION_TOKEN" after the prompts and before any request,
    whether it came from the prompt or from the environment; and a
    variable that is set to white space only is not prompted for, because
    [envOrAskToken] tests it untrimmed. *)
Theorem action_blank_token
  (B : BlockId) (env : gmap string string) (σ : store) (answer : string -> string)
  (remote : Remote) (blockId fileType : string) (cfg : option object) :
  isFileType fileType = true ->
  trim (fst (envOrAskToken env answer "NOTION_TOKEN")) = "" ->
  action env σ answer remote blockId fileType cfg =
    (Thrown (JsError "Missing NOTION_TOKEN"),
     snd (envOrAskToken env answer "NOTION_TOKEN")
     ++ snd (envOrAskToken env answer "NOTION_FILE_TOKEN"))
  /\ (forall v, env !! "NOTION_TOKEN" = Some v -> v <> "" ->
        ~ In (Question "NOTION_TOKEN")
             (snd (action env σ answer remote blockId fileType cfg))).
Proof.
  intros Hft Hblank.
  assert (Hc : constructor env σ
                 (Some (fst (envOrAskToken env answer "NOTION_TOKEN")))
                 (Some (fst (envOrAskToken env answer "NOTION_FILE_TOKEN"))) cfg
               = inl (JsError "Missing NOTION_TOKEN")).
  { unfold constructor.
    rewrite argOrEnv_without_argument by (right; eauto).
    unfold tokenV2Name. now rewrite (fetchEnv_blank_token env answer _ Hblank). }
  rewrite (action_without_client _ _ _ _ _ _ _ _ Hft Hc).
  split; [reflexivity|]. cbn [snd]. intros v Hv Hne Hin.
  apply in_app_or in Hin as [Hin | Hin].
  - assert (E : snd (envOrAskToken env answer "NOTION_TOKEN") = [])
      by (apply envOrAskToken_asked; eauto).
    now rewrite E in Hin.
  - pose proof (proj1 (envOrAskToken_asked env answer "NOTION_FILE_TOKEN")) as F.
    rewrite List.Forall_forall in F. apply F in Hin. discriminate Hin.
Qed.

Lemma action_blank_token_witness :
  @action specBlockId {[ "NOTION_TOKEN" := "   "; "NOTION_FILE_TOKEN" := "f" ]}
    Sample.σ0 (fun _ => "pasted") (Sample.service [Sample.finished] [])
    Sample.pageId "md" None
  = (Thrown (JsError "Missing NOTION_TOKEN"), []).
Proof.
  refine (proj1 (action_blank_token specBlockId
    {[ "NOTION_TOKEN" := "   "; "NOTION_FILE_TOKEN" := "f" ]}
    Sample.σ0 (fun _ => "pasted") (Sample.service [Sample.finished] [])
    Sample.pageId "md" None _ _)); reflexivity.
Defined.

Lemma andThen_prefix {A C} (p : Outcome A * list Event)
  (f : A -> Outcome C * list Event) :
  exists rest, snd (andThen p f) = snd p ++ rest.
Proof.
  destruct p as [[a | r | | r] tr]; cbn [andThen snd].
  - destruct (f a) as [o tr']. eauto.
  - exists []. now rewrite app_nil_r.
  - exists []. now rewrite app_nil_r.
  - exists []. now rewrite app_nil_r.
Qed.

Lemma getFileString_starts_with_submission `{BlockId} σ this remote idOrUrl predicate :
  exists rest,
    snd (getFileString σ this remote idOrUrl predicate)
    = snd (getTaskId σ this remote idOrUrl) ++ rest.
Proof.
  unfold getFileString, getZip, getZipUrl.
  destruct (andThen_prefix (getTaskId σ this remote idOrUrl) (pollTask σ this remote))
    as [r1 E1].
  destruct (andThen_prefix
              (andThen (getTaskId σ this remote idOrUrl) (pollTask σ this remote))
              (downloadZip remote)) as [r2 E2].
  destruct (andThen_prefix
              (andThen (andThen (getTaskId σ this remote idOrUrl)
                                (pollTask σ this remote)) (downloadZip remote))
              (fun zip => (fileString zip predicate, []))) as [r3 E3].
  exists (r1 ++ r2 ++ r3). rewrite E3, E2, E1. now rewrite <- !app_assoc.
Qed.

(** X23.  What the command prints.  For a valid file type and present
    credentials, once the archive is downloaded: "csv" prints the trimmed
    text of the first entry whose name ends in "_all.csv" (the flag for the
    current view is never passed), "md" that of the first entry ending in
    ".md"; when that entry is missing or blank the command prints "Could
    not find file in ZIP." and exits with code 1.  The prompts come first,
    the exporter's effects next, the printed line last. *)
Theorem action_prints_export
  (B : BlockId) (env : gmap string string) (σ σ' : store)
  (answer : string -> string) (remote : Remote) (blockId fileType : string)
  (cfg : option object) (exporter : NotionExporter) (zip : AdmZip)
  (tr : list Event) :
  isFileType fileType = true ->
  constructor env σ (Some (fst (envOrAskToken env answer "NOTION_TOKEN")))
    (Some (fst (envOrAskToken env answer "NOTION_FILE_TOKEN"))) cfg
    = inr (σ', exporter) ->
  getZip σ' exporter remote blockId = (Resolved zip, tr) ->
  let suffix := if String.eqb fileType "csv" then "_all.csv" else ".md" in
  let before :=
    snd (envOrAskToken env answer "NOTION_TOKEN")
    ++ snd (envOrAskToken env answer "NOTION_FILE_TOKEN")
    ++ map Client tr in
  action env σ answer remote blockId fileType cfg =
    match fileString zip (fun e => endsWith (name e) suffix) with
    | Resolved s => (Finished, before ++ [ConsoleLog (PText s)])
    | _ => (Exit 1, before ++ [ConsoleLog (PText "Could not find file in ZIP.")])
    end.
Proof.
  intros Hft Hc Hz suffix before.
  rewrite (action_with_client _ _ _ _ _ _ _ _ _ Hft Hc). cbn zeta.
  assert (R : (if String.eqb fileType "csv"
               then getCsvString σ' exporter remote blockId None
               else getMdString σ' exporter remote blockId)
              = (fileString zip (fun e => endsWith (name e) suffix), tr)).
  { subst suffix. destruct (String.eqb fileType "csv").
    - unfold getCsvString. now rewrite (getFileString_resolved _ _ _ _ _ _ _ Hz).
    - unfold getMdString. now rewrite (getFileString_resolved _ _ _ _ _ _ _ Hz). }
  rewrite R. cbn [fst snd]. fold before.
  unfold fileString. destruct (List.find _ zip) as [e |]; cbn [option_map];
    [| reflexivity].
  destruct (nonEmpty (trim (text e))); reflexivity.
Qed.

Lemma action_prints_export_witness :
  fst (@action specBlockId
         {[ "NOTION_TOKEN" := "t"; "NOTION_FILE_TOKEN" := "f" ]} Sample.σ0
         (fun _ => "") (Sample.service [Sample.finished] [Sample.viewCurrent])
         Sample.pageId "csv" None)
  = Exit 1.
Proof.
  pose (env := ({[ "NOTION_TOKEN" := "t"; "NOTION_FILE_TOKEN" := "f" ]}
                : gmap string string)).
  pose (remote := Sample.service [Sample.finished] [Sample.viewCurrent]).
  change (fst (@action specBlockId env Sample.σ0 (fun _ => "") remote
                 Sample.pageId "csv" None) = Exit 1).
  destruct (constructor env Sample.σ0
              (Some (fst (envOrAskToken env (fun _ => "") "NOTION_TOKEN")))
              (Some (fst (envOrAskToken env (fun _ => "") "NOTION_FILE_TOKEN")))
              None) as [e | [σ' exporter]] eqn:Hc;
    [vm_compute in Hc; discriminate Hc|].
  assert (Hz : @getZip specBlockId σ' exporter remote Sample.pageId
               = (Resolved [Sample.viewCurrent],
                  snd (@getZip specBlockId σ' exporter remote Sample.pageId))).
  { vm_compute in Hc. injection Hc as <- <-. vm_compute. reflexivity. }
  rewrite (action_prints_export specBlockId env Sample.σ0 σ' (fun _ => "")
             remote Sample.pageId "csv" None exporter _ _ eq_refl Hc Hz).
  reflexivity.
Defined.

(** X24.  The [recursive] option given to [action] reaches the service.
    For a valid file type, present credentials and a valid identifier, the
    first effect after the prompts is the submission, and its body carries
    the normalized block identifier and the truth value of the given
    [recursive] option, whatever [defaultConfig] held before. *)
Theorem action_submits_recursive_flag
  (B : BlockId) (env : gmap string string) (σ σ' : store) (d overrides : object)
  (answer : string -> string) (remote : Remote)
  (blockId fileType normalized : string) (exporter : NotionExporter) (v : value) :
  isFileType fileType = true ->
  σ !! defaultConfig = Some d ->
  constructor env σ (Some (fst (envOrAskToken env answer "NOTION_TOKEN")))
    (Some (fst (envOrAskToken env answer "NOTION_FILE_TOKEN"))) (Some overrides)
    = inr (σ', exporter) ->
  overrides !! "recursive" = Some v ->
  resolve blockId = Some normalized -> normalized <> "" ->
  exists body rest,
    snd (action env σ answer remote blockId fileType (Some overrides))
    = snd (envOrAskToken env answer "NOTION_TOKEN")
      ++ snd (envOrAskToken env answer "NOTION_FILE_TOKEN")
      ++ Client (Post "enqueueTask" (TaskBody body)) :: rest
    /\ recursive (request body) = truthy v
    /\ block_id (request body) = normalized.
Proof.
  intros Hft Hd Hc Hv Hid Hne.
  pose proof (constructor_inv _ _ _ _ _ _ _ Hc) as [Cfg Hσ].
  set (body := enqueueBody (default ∅ (σ' !! config exporter)) normalized).
  assert (Run : exists rest,
    snd (if String.eqb fileType "csv"
         then getCsvString σ' exporter remote blockId None
         else getMdString σ' exporter remote blockId)
    = Post "enqueueTask" (TaskBody body) :: rest).
  { pose proof (getTaskId_valid σ' exporter remote blockId normalized Hid Hne) as T.
    destruct (String.eqb fileType "csv").
    - destruct (getFileString_starts_with_submission σ' exporter remote blockId
                  (csvPredicate None)) as [rest E].
      exists rest. unfold getCsvString. rewrite E, T. reflexivity.
    - destruct (getFileString_starts_with_submission σ' exporter remote blockId
                  (fun e => endsWith (name e) ".md")) as [rest E].
      exists rest. unfold getMdString. rewrite E, T. reflexivity. }
  destruct Run as [rest Run].
  assert (Flag : recursive (request body) = truthy v).
  { subst body. rewrite Cfg, Hσ. simpl. rewrite lookup_alter_eq, Hd. simpl.
    unfold get. now rewrite (lookup_union_Some_l overrides d _ v Hv). }
  rewrite (action_with_client _ _ _ _ _ _ _ _ _ Hft Hc). cbn zeta. rewrite Run.
  destruct (fst (if String.eqb fileType "csv"
                 then getCsvString σ' exporter remote blockId None
                 else getMdString σ' exporter remote blockId))
    as [s | r | | r]; cbn [snd map].
  - exists body, (map Client rest ++ [ConsoleLog (PText s)]).
    split; [| auto]. now rewrite <- !app_assoc.
  - exists body, (map Client rest ++ report r).
    split; [| auto]. now rewrite <- !app_assoc.
  - exists body, (map Client rest). auto.
  - exists body, (map Client rest). auto.
Qed.

Lemma action_submits_recursive_flag_witness :
  exists body rest,
    snd (@action specBlockId
           {[ "NOTION_TOKEN" := "t"; "NOTION_FILE_TOKEN" := "f" ]} Sample.σ0
           (fun _ => "") (Sample.service [Sample.finished] [Sample.tableAll])
           Sample.pageId "csv" (Some {[ "recursive" := VBool true ]}))
    = Client (Post "enqueueTask" (TaskBody body)) :: rest
    /\ recursive (request body) = true.
Proof.
  pose (env := ({[ "NOTION_TOKEN" := "t"; "NOTION_FILE_TOKEN" := "f" ]}
                : gmap string string)).
  destruct (constructor env Sample.σ0
              (Some (fst (envOrAskToken env (fun _ => "") "NOTION_TOKEN")))
              (Some (fst (envOrAskToken env (fun _ => "") "NOTION_FILE_TOKEN")))
              (Some {[ "recursive" := VBool true ]})) as [e | [σ' exporter]] eqn:Hc;
    [vm_compute in Hc; discriminate Hc|].
  destruct (action_submits_recursive_flag specBlockId env Sample.σ0 σ'
    Sample.defaults {[ "recursive" := VBool true ]} (fun _ => "")
    (Sample.service [Sample.finished] [Sample.tableAll])
    Sample.pageId "csv" Sample.pageId exporter (VBool true)
    eq_refl eq_refl Hc eq_refl) as (body & rest & E & F & _).
  - vm_compute. reflexivity.
  - discriminate.
  - exists body, rest. split; [exact E | exact F].
Defined.
